(** * Signal engine of ALPHAVANTAGE_JAiNWIN: a shallow embedding

    The repository holds two variants of one trading-signal engine:
    - [Enhanced Technical strategy/Enhanced_technical_strat.py], the later
      variant (module [Enhanced] below), and
    - [strategy.py], the earlier variant (module [Earlier] below).

    Both are a class [Strategy] with one method [run] that takes a pandas
    table of price bars and returns it with the columns [trade_type], [TP],
    [SL] and [TSL] added.

    Numbers are Python floats, that is IEEE 754 binary64 values: they are
    modelled by Rocq's primitive floats, whose operations are the same
    correctly rounded binary64 operations, with [nan] for [np.nan]. *)

From Stdlib Require Import Floats ZArith List String Ascii Bool Lia.
Import ListNotations.

Set Warnings "-inexact-float".

(** ** Python comparisons on floats

    Every comparison with a NaN operand is [False], as in Python. *)
Module Py.

Definition lt (x y : float) : bool := PrimFloat.ltb x y.
Definition le (x y : float) : bool := PrimFloat.leb x y.
Definition gt (x y : float) : bool := PrimFloat.ltb y x.
Definition ge (x y : float) : bool := PrimFloat.leb y x.
Definition eq (x y : float) : bool := PrimFloat.eqb x y.

(** [pd.isna] on a float. *)
Definition isna (x : float) : bool := PrimFloat.is_nan x.

(** [str.lower] on the ASCII letters; other bytes are left as they are
    (none of the required names can be produced from them).  On a label
    of ASCII characters this is [str.lower]; of a label with other cased
    characters [str.lower] lower-cases those too. *)
Definition lower_ascii (c : ascii) : ascii :=
  let n := nat_of_ascii c in
  if (65 <=? n)%nat && (n <=? 90)%nat then ascii_of_nat (n + 32) else c.

Fixpoint lower (s : string) : string :=
  match s with
  | EmptyString => EmptyString
  | String c s' => String (lower_ascii c) (lower s')
  end.

(** [x in xs] for a list of strings. *)
Definition contains (x : string) (xs : list string) : bool :=
  existsb (String.eqb x) xs.

End Py.

(** ** The enumeration [TradeType] and its text values *)
Inductive TradeType : Set :=
| LONG | SHORT | REVERSE_LONG | REVERSE_SHORT | CLOSE | HOLD.

Definition TradeType_value (t : TradeType) : string :=
  match t with
  | LONG => "LONG"
  | SHORT => "SHORT"
  | REVERSE_LONG => "REVERSE_LONG"
  | REVERSE_SHORT => "REVERSE_SHORT"
  | CLOSE => "CLOSE"
  | HOLD => "HOLD"
  end.

(** The local variable [position]: ['LONG'], ['SHORT'] or [None]. *)
Inductive Side : Set := PosLong | PosShort.

(** Python exceptions that [run] can meet. *)
Inductive exn : Set :=
| KeyError (msg : string)
| ValueError (msg : string)
| OtherException (msg : string).

(** ** Tables

    A pandas table of floats: column labels, and rows that carry their index
    label and one cell per column. *)
Module DataFrame.

Record Row : Set := mkRow { label : Z; cells : list float }.

Record t : Set := mkDF { columns : list string; rows : list Row }.

(** [df.empty]: an axis of length 0. *)
Definition empty (df : t) : bool :=
  match columns df, rows df with
  | [], _ => true
  | _, [] => true
  | _, _ => false
  end.

Definition len (df : t) : nat := List.length (rows df).

(** [df.rename(columns=m)] for a literal dict [m]. *)
Fixpoint rename_one (m : list (string * string)) (c : string) : string :=
  match m with
  | [] => c
  | (k, v) :: m' => if String.eqb k c then v else rename_one m' c
  end.

Definition rename (m : list (string * string)) (df : t) : t :=
  mkDF (map (rename_one m) (columns df)) (rows df).

(** [df.columns = [col.lower() for col in df.columns]] *)
Definition lower_columns (df : t) : t :=
  mkDF (map Py.lower (columns df)) (rows df).

(** A row keeps its place under [dropna(subset=...)] when no cell of a
    column named in [subset] is NaN. *)
Definition row_complete (subset cols : list string) (r : Row) : bool :=
  forallb (fun nc => negb (Py.contains (fst nc) subset && Py.isna (snd nc)))
          (combine cols (cells r)).

Definition dropna (subset : list string) (df : t) : t :=
  mkDF (columns df) (filter (row_complete subset (columns df)) (rows df)).

(** [row[name]]: the cell of the first column called [name]. *)
Fixpoint lookup (cols : list string) (cs : list float) (name : string) : float :=
  match cols, cs with
  | c :: cols', x :: cs' => if String.eqb c name then x else lookup cols' cs' name
  | _, _ => nan
  end.

Definition get (df : t) (r : Row) (name : string) : float :=
  lookup (columns df) (cells r) name.

End DataFrame.

(** One row of the four output columns. *)
Record Decision : Set := mkDecision {
  trade_type : TradeType;
  TP : float;
  SL : float;
  TSL : float
}.

(** The table [run] returns: the bars, and the four added columns, one
    [Decision] per row.  (The indicator columns that the later variant also
    leaves in the table are not part of the record.) *)
Record Output : Set := mkOutput {
  frame : DataFrame.t;
  decisions : list Decision
}.

(** [df['trade_type'] = TradeType.HOLD.value] and
    [df['TP'] = df['SL'] = df['TSL'] = np.nan]. *)
Definition hold_nan : Decision := mkDecision HOLD nan nan nan.

Definition stamp_hold (df : DataFrame.t) : Output :=
  mkOutput df (map (fun _ => hold_nan) (DataFrame.rows df)).

Definition required_cols : list string :=
  ["open"; "high"; "low"; "close"; "volume"]%string.

(** The loop over [required_cols] that raises on the first absent one. *)
Fixpoint first_missing (req cols : list string) : option string :=
  match req with
  | [] => None
  | c :: req' => if Py.contains c cols then first_missing req' cols else Some c
  end.

Definition missing_column (col : string) : exn :=
  KeyError ("Missing required column: '" ++ col ++ "'")%string.

(** ** The later variant: [Enhanced_technical_strat.py] *)
Module Enhanced.

(** The values the strategy loop reads from the indicator columns of a
    row: [ema_50], [ema_200], [bb_lower], [bb_width], [vwap], [rsi], [atr],
    [adx], [plus_di], [minus_di]. *)
Record Ind : Set := mkInd {
  ema_50 : float;
  ema_200 : float;
  bb_lower : float;
  bb_width : float;
  vwap : float;
  rsi : float;
  atr : float;
  adx : float;
  plus_di : float;
  minus_di : float
}.

(** [row = df.loc[i]] as the loop uses it. *)
Record Bar : Set := mkBar {
  index : Z;
  close : float;
  high : float;
  low : float;
  ind : Ind
}.

(** The parameters [run] fixes as local constants. *)
Record Params : Set := mkParams {
  atr_mult_sl : float;
  atr_mult_tp : float;
  min_bb_width : float;
  adx_threshold : float;
  rsi_long_entry : float;
  rsi_short_entry : float;
  allow_reversals : bool
}.

Definition default_params : Params :=
  {| atr_mult_sl := 2.5;
     atr_mult_tp := 3.0;
     min_bb_width := 0.015;
     adx_threshold := 28;
     rsi_long_entry := 55;
     rsi_short_entry := 45;
     allow_reversals := false |}.

(** The loop's running variables. *)
Record State : Set := mkState {
  position : option Side;
  entry_price : float;
  sl : float;
  tp : float;
  tsl : float
}.

Definition initial_state : State := mkState None nan nan nan nan.

(** [row[essential_indicators].isnull().any()] *)
Definition essential_isnull (i : Ind) : bool :=
  Py.isna (ema_50 i) || Py.isna (ema_200 i) || Py.isna (vwap i)
  || Py.isna (bb_width i) || Py.isna (adx i) || Py.isna (plus_di i)
  || Py.isna (minus_di i) || Py.isna (rsi i) || Py.isna (atr i).

(** [atr = row['atr']; if atr == 0: atr = 0.0001] *)
Definition effective_atr (b : Bar) : float :=
  if Py.eq (atr (ind b)) 0 then 0.0001%float else atr (ind b).

(** Which arm of the [if]/[elif] chain set [exit_triggered]. *)
Inductive ExitArm : Set :=
| ArmTrailingStop | ArmStopLoss | ArmTakeProfit | ArmTrendFlip.

(** The exit chain under [if position == 'LONG']. *)
Definition exit_arm_long (st : State) (b : Bar) : option ExitArm :=
  if Py.le (low b) (tsl st) then Some ArmTrailingStop
  else if Py.le (low b) (sl st) then Some ArmStopLoss
  else if Py.ge (high b) (tp st) then Some ArmTakeProfit
  else if Py.lt (ema_50 (ind b)) (ema_200 (ind b)) then Some ArmTrendFlip
  else None.

(** The exit chain under [elif position == 'SHORT']. *)
Definition exit_arm_short (st : State) (b : Bar) : option ExitArm :=
  if Py.ge (high b) (tsl st) then Some ArmTrailingStop
  else if Py.ge (high b) (sl st) then Some ArmStopLoss
  else if Py.le (low b) (tp st) then Some ArmTakeProfit
  else if Py.gt (ema_50 (ind b)) (ema_200 (ind b)) then Some ArmTrendFlip
  else None.

Definition exit_arm (st : State) (b : Bar) : option ExitArm :=
  match position st with
  | Some PosLong => exit_arm_long st b
  | Some PosShort => exit_arm_short st b
  | None => None
  end.

(** [exit_triggered] after the exit logic. *)
Definition exit_triggered (st : State) (b : Bar) : bool :=
  match exit_arm st b with Some _ => true | None => false end.

(** The trailing stop after [if not exit_triggered: ...], for a position
    that stays open. *)
Definition ratchet (p : Params) (st : State) (b : Bar) : float :=
  match position st with
  | Some PosLong =>
      let potential_tsl := (close b - effective_atr b * atr_mult_sl p)%float in
      if Py.isna (tsl st) || Py.gt potential_tsl (tsl st)
      then potential_tsl else tsl st
  | Some PosShort =>
      let potential_tsl := (close b + effective_atr b * atr_mult_sl p)%float in
      if Py.isna (tsl st) || Py.lt potential_tsl (tsl st)
      then potential_tsl else tsl st
  | None => tsl st
  end.

Definition long_signal (p : Params) (b : Bar) : bool :=
  Py.gt (ema_50 (ind b)) (ema_200 (ind b))
  && Py.gt (close b) (vwap (ind b))
  && Py.gt (bb_width (ind b)) (min_bb_width p)
  && Py.gt (adx (ind b)) (adx_threshold p)
  && Py.gt (plus_di (ind b)) (minus_di (ind b))
  && Py.ge (rsi (ind b)) (rsi_long_entry p).

Definition short_signal (p : Params) (b : Bar) : bool :=
  Py.lt (ema_50 (ind b)) (ema_200 (ind b))
  && Py.lt (close b) (vwap (ind b))
  && Py.gt (bb_width (ind b)) (min_bb_width p)
  && Py.gt (adx (ind b)) (adx_threshold p)
  && Py.gt (minus_di (ind b)) (plus_di (ind b))
  && Py.le (rsi (ind b)) (rsi_short_entry p).

(** The four assignments of a long entry or reversal:
    [entry_price = current_price; sl = entry_price - atr * atr_mult_sl;
     tsl = sl; tp = entry_price + atr * atr_mult_tp]. *)
Definition open_long (p : Params) (b : Bar) : State :=
  let entry := close b in
  let stop := (entry - effective_atr b * atr_mult_sl p)%float in
  {| position := Some PosLong;
     entry_price := entry;
     sl := stop;
     tp := (entry + effective_atr b * atr_mult_tp p)%float;
     tsl := stop |}.

Definition open_short (p : Params) (b : Bar) : State :=
  let entry := close b in
  let stop := (entry + effective_atr b * atr_mult_sl p)%float in
  {| position := Some PosShort;
     entry_price := entry;
     sl := stop;
     tp := (entry - effective_atr b * atr_mult_tp p)%float;
     tsl := stop |}.

(** "Execute Trades" and "Set HOLD if no action", from the state [st] that
    the exit logic left. *)
Definition execute_trades (p : Params) (st : State) (b : Bar)
  : State * TradeType :=
  match position st with
  | None =>
      if long_signal p b then (open_long p b, LONG)
      else if short_signal p b then (open_short p b, SHORT)
      else (st, HOLD)
  | Some side =>
      if allow_reversals p then
        match side with
        | PosShort =>
            if long_signal p b then (open_long p b, REVERSE_LONG)
            else (st, HOLD)
        | PosLong =>
            if short_signal p b then (open_short p b, REVERSE_SHORT)
            else (st, HOLD)
        end
      else (st, HOLD)
  end.

Definition levels_of (t : TradeType) (st : State) : Decision :=
  mkDecision t (tp st) (sl st) (tsl st).

(** One pass of the body of the strategy loop: the state it leaves and
    the four cells it stores in the row. *)
Definition step (p : Params) (st : State) (b : Bar) : State * Decision :=
  if essential_isnull (ind b) then (st, levels_of HOLD st)
  else if exit_triggered st b then (initial_state, levels_of CLOSE st)
  else
    let st1 := {| position := position st;
                  entry_price := entry_price st;
                  sl := sl st;
                  tp := tp st;
                  tsl := ratchet p st b |} in
    let '(st2, t) := execute_trades p st1 b in
    (st2, levels_of t st2).

(** *** The strategy loop *)

(** [df.dropna(subset=['ema_200', 'bb_lower', 'rsi', 'atr', 'adx'])]
    keeps the rows where none of the five is NaN. *)
Definition start_ready (i : Ind) : bool :=
  negb (Py.isna (ema_200 i) || Py.isna (bb_lower i) || Py.isna (rsi i)
        || Py.isna (atr i) || Py.isna (adx i)).

(** [.index.min()] of those rows; [None] stands for the NaN that [min]
    gives on an empty index. *)
Fixpoint first_valid_index (bars : list Bar) : option Z :=
  match bars with
  | [] => None
  | b :: bars' =>
      let rest := first_valid_index bars' in
      if start_ready (ind b) then
        match rest with
        | Some m => Some (Z.min (index b) m)
        | None => Some (index b)
        end
      else rest
  end.

(** [for i in df.index[df.index >= first_valid_index]]: the rows are
    visited in table order; a row whose label is below the first valid one
    keeps its default cells. *)
Fixpoint strategy_loop (p : Params) (start : Z) (st : State) (bars : list Bar)
  : list Decision :=
  match bars with
  | [] => []
  | b :: bars' =>
      if (start <=? index b)%Z then
        let '(st', d) := step p st b in
        d :: strategy_loop p start st' bars'
      else hold_nan :: strategy_loop p start st bars'
  end.

(** The running variables when the loop has gone through [bars]. *)
Fixpoint state_after (p : Params) (start : Z) (st : State) (bars : list Bar)
  : State :=
  match bars with
  | [] => st
  | b :: bars' =>
      if (start <=? index b)%Z
      then state_after p start (fst (step p st b)) bars'
      else state_after p start st bars'
  end.

(** Whether some label occurs twice.  [df.loc[i]] is then a table and not
    a row, and the test [if row[...].isnull().any():] raises
    [ValueError]. *)
Fixpoint has_duplicate (ls : list Z) : bool :=
  match ls with
  | [] => false
  | l :: ls' => existsb (Z.eqb l) ls' || has_duplicate ls'
  end.

Definition visited_labels (start : Z) (bars : list Bar) : list Z :=
  filter (fun l => (start <=? l)%Z) (map index bars).

(** The [ValueError] of [if] on a table of truth values, with the first
    sentence of its message. *)
Definition ambiguous_truth_value : exn :=
  ValueError "The truth value of a Series is ambiguous.".

(** *** [Strategy.run] *)

Definition rename_map : list (string * string) :=
  [("Datetime", "datetime"); ("Open", "open"); ("High", "high");
   ("Low", "low"); ("Close", "close"); ("Volume", "volume")]%string.

(** [df.rename(columns={...}, inplace=True)] and the lower-casing of the
    column labels. *)
Definition normalize (data : DataFrame.t) : DataFrame.t :=
  DataFrame.lower_columns (DataFrame.rename rename_map data).

(** The cleaned table of a table that passed the column check. *)
Definition clean (data : DataFrame.t) : DataFrame.t :=
  DataFrame.dropna required_cols (normalize data).

Section Run.

(** The [try] block: the indicator columns computed with [pandas_ta]
    (a library outside the repository) and from them, for the row at
    each position of the cleaned table; or the exception raised. *)
Variable indicators : DataFrame.t -> exn + (nat -> Ind).

Variable p : Params.

Fixpoint bars_from (df : DataFrame.t) (f : nat -> Ind) (k : nat)
  (rs : list DataFrame.Row) : list Bar :=
  match rs with
  | [] => []
  | r :: rs' =>
      {| index := DataFrame.label r;
         close := DataFrame.get df r "close";
         high := DataFrame.get df r "high";
         low := DataFrame.get df r "low";
         ind := f k |} :: bars_from df f (S k) rs'
  end.

Definition bars_of (df : DataFrame.t) (f : nat -> Ind) : list Bar :=
  bars_from df f 0 (DataFrame.rows df).

(** From "Strategy Logic" to the final [return df]. *)
Definition strategy_logic (df : DataFrame.t) (f : nat -> Ind) : exn + Output :=
  let bars := bars_of df f in
  match first_valid_index bars with
  | None => inr (stamp_hold df)
  | Some start =>
      if has_duplicate (visited_labels start bars)
      then inl ambiguous_truth_value
      else inr (mkOutput df (strategy_loop p start initial_state bars))
  end.

Definition run (data : DataFrame.t) : exn + Output :=
  if DataFrame.empty data then inr (stamp_hold data)
  else
    let df := normalize data in
    match first_missing required_cols (DataFrame.columns df) with
    | Some col => inl (missing_column col)
    | None =>
        let df := DataFrame.dropna required_cols df in
        if (DataFrame.len df <? 200)%nat then inr (stamp_hold df)
        else
          match indicators df with
          | inl _ => inr (stamp_hold df)
          | inr f => strategy_logic df f
          end
    end.

End Run.

End Enhanced.

(** ** The earlier variant: [strategy.py] *)
Module Earlier.

(** What one pass of the loop reads at row [i]. *)
Record Bar : Set := mkBar {
  price : float;
  atr : float;
  bb_width : float;
  rsi : float;
  ema_50 : float;
  ema_200 : float;
  vwap : float
}.

Definition atr_mult : float := 1.5.
Definition reward_ratio : float := 2.
Definition min_bb_width : float := 0.01.

(** [position] and [tsl] are set together and reset to [None] together:
    the running state is the pair of them, when a position is open. *)
Definition State : Set := option (Side * float).

Definition long_signal (b : Bar) : bool :=
  Py.gt (ema_50 b) (ema_200 b) && Py.gt (price b) (vwap b)
  && Py.gt (bb_width b) min_bb_width && Py.lt (rsi b) 70.

Definition short_signal (b : Bar) : bool :=
  Py.lt (ema_50 b) (ema_200 b) && Py.lt (price b) (vwap b)
  && Py.gt (bb_width b) min_bb_width && Py.gt (rsi b) 30.

(** The builtins [max(a, b)] and [min(a, b)]: [b] only when it compares
    strictly beyond [a]. *)
Definition py_max (a b : float) : float := if Py.gt b a then b else a.
Definition py_min (a b : float) : float := if Py.lt b a then b else a.

(** [hit_tsl] *)
Definition hit_tsl (st : State) (b : Bar) : bool :=
  match st with
  | Some (PosLong, tsl) => Py.lt (price b) tsl
  | Some (PosShort, tsl) => Py.gt (price b) tsl
  | None => false
  end.

Definition enter_long (t : TradeType) (b : Bar) : State * Decision :=
  let stop := (price b - atr b * atr_mult)%float in
  (Some (PosLong, stop),
   {| trade_type := t;
      TP := (price b + atr b * atr_mult * reward_ratio)%float;
      SL := stop;
      TSL := stop |}).

Definition enter_short (t : TradeType) (b : Bar) : State * Decision :=
  let stop := (price b + atr b * atr_mult)%float in
  (Some (PosShort, stop),
   {| trade_type := t;
      TP := (price b - atr b * atr_mult * reward_ratio)%float;
      SL := stop;
      TSL := stop |}).

(** [df.at[i, 'TSL'] = tsl], where [None] is stored as NaN. *)
Definition tsl_cell (st : State) : float :=
  match st with Some (_, tsl) => tsl | None => nan end.

Definition keep (t : TradeType) (st : State) : State * Decision :=
  (st, mkDecision t nan nan (tsl_cell st)).

(** One pass of the loop body; [SL] and [TP] are written on entries and
    reversals only. *)
Definition step (st : State) (b : Bar) : State * Decision :=
  if hit_tsl st b then (None, mkDecision CLOSE nan nan nan)
  else if long_signal b then
    match st with
    | None => enter_long LONG b
    | Some (PosShort, _) => enter_long REVERSE_LONG b
    | Some (PosLong, tsl) =>
        keep HOLD (Some (PosLong, py_max tsl (price b - atr b * atr_mult)%float))
    end
  else if short_signal b then
    match st with
    | None => enter_short SHORT b
    | Some (PosLong, _) => enter_short REVERSE_SHORT b
    | Some (PosShort, tsl) =>
        keep HOLD (Some (PosShort, py_min tsl (price b + atr b * atr_mult)%float))
    end
  else
    match st with
    | Some (PosLong, _) =>
        if Py.lt (price b) (ema_50 b) || Py.lt (price b) (vwap b)
        then keep CLOSE None else keep HOLD st
    | Some (PosShort, _) =>
        if Py.gt (price b) (ema_50 b) || Py.gt (price b) (vwap b)
        then keep CLOSE None else keep HOLD st
    | None => keep HOLD st
    end.

(** The column check at the head of [run]: the labels are lower-cased,
    then the first absent required one raises. *)
Definition check_columns (data : DataFrame.t) : option exn :=
  match first_missing required_cols (map Py.lower (DataFrame.columns data)) with
  | Some col => Some (missing_column col)
  | None => None
  end.

End Earlier.

(** ** Vocabulary of the specification *)
Module Spec.

(** In the spec's words: the exit conditions of an open position, in the
    documented priority order trailing stop, stop-loss, take-profit, trend
    flip; the price tests use the bar's low and high. *)
Definition exit_tests (side : Side) (st : Enhanced.State) (b : Enhanced.Bar)
  : list (bool * Enhanced.ExitArm) :=
  match side with
  | PosLong =>
      [ (Py.le (Enhanced.low b) (Enhanced.tsl st), Enhanced.ArmTrailingStop);
        (Py.le (Enhanced.low b) (Enhanced.sl st), Enhanced.ArmStopLoss);
        (Py.ge (Enhanced.high b) (Enhanced.tp st), Enhanced.ArmTakeProfit);
        (Py.lt (Enhanced.ema_50 (Enhanced.ind b)) (Enhanced.ema_200 (Enhanced.ind b)),
         Enhanced.ArmTrendFlip) ]
  | PosShort =>
      [ (Py.ge (Enhanced.high b) (Enhanced.tsl st), Enhanced.ArmTrailingStop);
        (Py.ge (Enhanced.high b) (Enhanced.sl st), Enhanced.ArmStopLoss);
        (Py.le (Enhanced.low b) (Enhanced.tp st), Enhanced.ArmTakeProfit);
        (Py.gt (Enhanced.ema_50 (Enhanced.ind b)) (Enhanced.ema_200 (Enhanced.ind b)),
         Enhanced.ArmTrendFlip) ]
  end.

(** The first condition that triggers wins. *)
Fixpoint first_triggered {A : Type} (tests : list (bool * A)) : option A :=
  match tests with
  | [] => None
  | (c, a) :: tests' => if c then Some a else first_triggered tests'
  end.

(** In the spec's words: the reward multiple, the target distance counted
    in stop distances.  The later variant has no such constant; its target
    multiplier 3.0 is 1.2 times its stop multiplier 2.5. *)
Definition reward_multiple : float := 1.2.

(** A position's levels are defined if and only if the side is not Flat. *)
Definition levels_match_side (st : Enhanced.State) : bool :=
  match Enhanced.position st with
  | None =>
      Py.isna (Enhanced.sl st) && Py.isna (Enhanced.tp st)
      && Py.isna (Enhanced.tsl st)
  | Some _ =>
      negb (Py.isna (Enhanced.sl st)) && negb (Py.isna (Enhanced.tp st))
      && negb (Py.isna (Enhanced.tsl st))
  end.

(** The two distance multipliers are finite and not zero (as the
    constants 2.5 and 3.0 of [run] are). *)
Definition usable_multipliers (p : Enhanced.Params) : bool :=
  is_finite (Enhanced.atr_mult_sl p) && negb (Py.eq (Enhanced.atr_mult_sl p) 0)
  && is_finite (Enhanced.atr_mult_tp p) && negb (Py.eq (Enhanced.atr_mult_tp p) 0).

Definition finite_close (b : Enhanced.Bar) : bool := is_finite (Enhanced.close b).

(** The bar with another value in its [atr] cell. *)
Definition set_atr (b : Enhanced.Bar) (a : float) : Enhanced.Bar :=
  {| Enhanced.index := Enhanced.index b; Enhanced.close := Enhanced.close b;
     Enhanced.high := Enhanced.high b; Enhanced.low := Enhanced.low b;
     Enhanced.ind :=
       {| Enhanced.ema_50 := Enhanced.ema_50 (Enhanced.ind b);
          Enhanced.ema_200 := Enhanced.ema_200 (Enhanced.ind b);
          Enhanced.bb_lower := Enhanced.bb_lower (Enhanced.ind b);
          Enhanced.bb_width := Enhanced.bb_width (Enhanced.ind b);
          Enhanced.vwap := Enhanced.vwap (Enhanced.ind b);
          Enhanced.rsi := Enhanced.rsi (Enhanced.ind b);
          Enhanced.atr := a;
          Enhanced.adx := Enhanced.adx (Enhanced.ind b);
          Enhanced.plus_di := Enhanced.plus_di (Enhanced.ind b);
          Enhanced.minus_di := Enhanced.minus_di (Enhanced.ind b) |} |}.

(** Two to the power 41, about 2.2e12: below it neighbouring binary64
    values are at most 0.000244 apart. *)
Definition price_bound : float := 2199023255552.

End Spec.

(** ** Sample bars and states *)
Module Sample.

Definition trending_up : Enhanced.Ind :=
  {| Enhanced.ema_50 := 101; Enhanced.ema_200 := 100; Enhanced.bb_lower := 99;
     Enhanced.bb_width := 0.05; Enhanced.vwap := 100; Enhanced.rsi := 60;
     Enhanced.atr := 1; Enhanced.adx := 30; Enhanced.plus_di := 25;
     Enhanced.minus_di := 10 |}.

Definition trending_down : Enhanced.Ind :=
  {| Enhanced.ema_50 := 99; Enhanced.ema_200 := 100; Enhanced.bb_lower := 97;
     Enhanced.bb_width := 0.05; Enhanced.vwap := 100; Enhanced.rsi := 40;
     Enhanced.atr := 1; Enhanced.adx := 30; Enhanced.plus_di := 10;
     Enhanced.minus_di := 25 |}.

(** An up-trend that has lost its strength: no signal either way. *)
Definition drifting_up : Enhanced.Ind :=
  {| Enhanced.ema_50 := 101; Enhanced.ema_200 := 100; Enhanced.bb_lower := 99;
     Enhanced.bb_width := 0.05; Enhanced.vwap := 100; Enhanced.rsi := 60;
     Enhanced.atr := 1; Enhanced.adx := 20; Enhanced.plus_di := 25;
     Enhanced.minus_di := 10 |}.

Definition bar (i : Z) (c h l : float) (x : Enhanced.Ind) : Enhanced.Bar :=
  {| Enhanced.index := i; Enhanced.close := c; Enhanced.high := h;
     Enhanced.low := l; Enhanced.ind := x |}.

(** A long and a short position opened at 100 with an ATR of 1. *)
Definition long_100 : Enhanced.State :=
  Enhanced.open_long Enhanced.default_params (bar 0 100 100.5 99.5 trending_up).

Definition short_100 : Enhanced.State :=
  Enhanced.open_short Enhanced.default_params (bar 0 100 100.5 99.5 trending_down).

(** A bar whose range crosses both the stop-loss and the take-profit of
    [long_100]. *)
Definition wide_bar : Enhanced.Bar := bar 1 100 104 97 trending_up.

(** A quiet bar with the long signal. *)
Definition up_bar : Enhanced.Bar := bar 1 101 101.5 100.5 trending_up.

(** A quiet bar above the entry of [long_100], without a signal. *)
Definition drift_bar : Enhanced.Bar := bar 2 102 102.5 101.5 drifting_up.

Definition reversing_params : Enhanced.Params :=
  {| Enhanced.atr_mult_sl := 2.5; Enhanced.atr_mult_tp := 3.0;
     Enhanced.min_bb_width := 0.015; Enhanced.adx_threshold := 28;
     Enhanced.rsi_long_entry := 55; Enhanced.rsi_short_entry := 45;
     Enhanced.allow_reversals := true |}.

(** *** Bars with an ATR of zero *)

Definition with_atr (x : Enhanced.Ind) (a : float) : Enhanced.Ind :=
  {| Enhanced.ema_50 := Enhanced.ema_50 x; Enhanced.ema_200 := Enhanced.ema_200 x;
     Enhanced.bb_lower := Enhanced.bb_lower x; Enhanced.bb_width := Enhanced.bb_width x;
     Enhanced.vwap := Enhanced.vwap x; Enhanced.rsi := Enhanced.rsi x;
     Enhanced.atr := a; Enhanced.adx := Enhanced.adx x;
     Enhanced.plus_di := Enhanced.plus_di x; Enhanced.minus_di := Enhanced.minus_di x |}.



(** A bar of the earlier variant with the long signal and an ATR of zero. *)
Definition earlier_still_bar : Earlier.Bar :=
  {| Earlier.price := 101; Earlier.atr := 0; Earlier.bb_width := 0.05;
     Earlier.rsi := 60; Earlier.ema_50 := 101; Earlier.ema_200 := 100;
     Earlier.vwap := 100 |}.

(** *** Tables *)

Definition four_columns : list string := ["Open"; "High"; "Low"; "Close"]%string.
Definition five_columns : list string :=
  ["Open"; "High"; "Low"; "Close"; "Volume"]%string.

(** A table with no row and no [Volume] column. *)
Definition empty_without_volume : DataFrame.t := DataFrame.mkDF four_columns [].

(** A table with one bar and no [Volume] column. *)
Definition one_bar_without_volume : DataFrame.t :=
  DataFrame.mkDF four_columns [DataFrame.mkRow 0 [100; 101; 99; 100.5]%float].

(** [n] complete bars labelled [0 .. n-1]. *)
Definition flat_market (n : nat) : DataFrame.t :=
  DataFrame.mkDF five_columns
    (map (fun k => DataFrame.mkRow (Z.of_nat k) [100; 101; 99; 100.5; 1000]%float)
         (seq 0 n)).

(** An indicator stage that fails, and one that reports an up-trend on
    every row. *)
Definition failing_indicators (_ : DataFrame.t) : exn + (nat -> Enhanced.Ind) :=
  inl (OtherException "indicator failure").

Definition steady_indicators (_ : DataFrame.t) : exn + (nat -> Enhanced.Ind) :=
  inr (fun _ => trending_up).

End Sample.

(** ** Columns computed inside [run]

    The column arithmetic of pandas that [run] uses on its own account, on
    columns of equal length held as lists. *)
Module Series.

(** Element-wise arithmetic of two columns. *)
Fixpoint zip_with (f : float -> float -> float) (xs ys : list float) : list float :=
  match xs, ys with
  | x :: xs', y :: ys' => f x y :: zip_with f xs' ys'
  | _, _ => []
  end.

Definition mul : list float -> list float -> list float := zip_with PrimFloat.mul.
Definition sub : list float -> list float -> list float := zip_with PrimFloat.sub.
Definition add : list float -> list float -> list float := zip_with PrimFloat.add.
Definition div : list float -> list float -> list float := zip_with PrimFloat.div.

(** [s.replace(0, np.nan)] *)
Definition replace_zero_cell (x : float) : float := if Py.eq x 0 then nan else x.

Definition replace_zero (xs : list float) : list float := map replace_zero_cell xs.

(** [s.cumsum()]: a NaN cell counts as 0 in the running sum and is NaN in
    the result; the sum starts with the first cell itself. *)
Definition zero_if_na (x : float) : float := if Py.isna x then 0%float else x.

Fixpoint running_sum (acc : float) (xs : list float) : list float :=
  match xs with
  | [] => []
  | x :: xs' =>
      let acc' := (acc + zero_if_na x)%float in
      (if Py.isna x then nan else acc') :: running_sum acc' xs'
  end.

Definition cumsum (xs : list float) : list float :=
  match xs with
  | [] => []
  | x :: xs' => (if Py.isna x then nan else x) :: running_sum (zero_if_na x) xs'
  end.

(** [s.ffill()]: a NaN cell takes the last value that was not NaN, if any. *)
Fixpoint ffill_from (last : float) (xs : list float) : list float :=
  match xs with
  | [] => []
  | x :: xs' =>
      let v := if Py.isna x then last else x in
      v :: ffill_from v xs'
  end.

Definition ffill (xs : list float) : list float := ffill_from nan xs.

End Series.

(** The columns [run] of the later variant derives in its [try] block
    without [pandas_ta]: [bb_width] from the three band columns, and [vwap]
    from [close] and [volume]. *)
Module Derived.

(** [(df['bb_upper'] - df['bb_lower']) / df['bb_mid'].replace(0, np.nan)] *)
Definition bb_width (bb_upper bb_lower bb_mid : list float) : list float :=
  Series.div (Series.sub bb_upper bb_lower) (Series.replace_zero bb_mid).

Definition cum_vol_price (close volume : list float) : list float :=
  Series.cumsum (Series.mul close volume).

Definition cum_vol (volume : list float) : list float := Series.cumsum volume.

(** [df['cum_vol_price'] / df['cum_vol'].replace(0, np.nan)], before the
    forward fill. *)
Definition raw_vwap (close volume : list float) : list float :=
  Series.div (cum_vol_price close volume) (Series.replace_zero (cum_vol volume)).

(** The column after [df['vwap'].ffill(inplace=True)], the fill taken to
    act on the column of the frame (pandas without copy-on-write). *)
Definition vwap (close volume : list float) : list float :=
  Series.ffill (raw_vwap close volume).

End Derived.

(** The same two columns in the earlier variant, which divides without a
    guard and does not fill. *)
Module EarlierDerived.

(** [df['bb_upper']] and [df['bb_lower']]: the middle band plus and minus
    twice the deviation. *)
Definition bb_upper (bb_mid bb_std : list float) : list float :=
  Series.add bb_mid (map (fun x => (2 * x)%float) bb_std).

Definition bb_lower (bb_mid bb_std : list float) : list float :=
  Series.sub bb_mid (map (fun x => (2 * x)%float) bb_std).

Definition bb_width (bb_mid bb_std : list float) : list float :=
  Series.div (Series.sub (bb_upper bb_mid bb_std) (bb_lower bb_mid bb_std)) bb_mid.

Definition vwap (close volume : list float) : list float :=
  Series.div (Series.cumsum (Series.mul close volume)) (Series.cumsum volume).

End EarlierDerived.

(** The loop of the earlier variant, [for i in range(20, len(df))], on a
    table with the default index [0 .. n-1]: the rows at positions below 20
    keep the default cells. *)
Module EarlierLoop.

Fixpoint from (st : Earlier.State) (bars : list Earlier.Bar) : list Decision :=
  match bars with
  | [] => []
  | b :: bars' =>
      let '(st', d) := Earlier.step st b in
      d :: from st' bars'
  end.

Fixpoint state_from (st : Earlier.State) (bars : list Earlier.Bar) : Earlier.State :=
  match bars with
  | [] => st
  | b :: bars' => state_from (fst (Earlier.step st b)) bars'
  end.

Definition strategy_loop (bars : list Earlier.Bar) : list Decision :=
  map (fun _ => hold_nan) (firstn 20 bars) ++ from None (skipn 20 bars).

End EarlierLoop.

(** ** Reading the position back from the [trade_type] column *)
Module Trace.

(** The side that a row's stamp leaves, given the side before it. *)
Definition after (side : option Side) (t : TradeType) : option Side :=
  match t with
  | LONG | REVERSE_LONG => Some PosLong
  | SHORT | REVERSE_SHORT => Some PosShort
  | CLOSE => None
  | HOLD => side
  end.

Definition replay (side : option Side) (ts : list TradeType) : option Side :=
  fold_left after ts side.

(** The stamps that are possible for the side before the row: an entry
    only when flat, a close or a reversal only when a position is open. *)
Definition allowed (side : option Side) (t : TradeType) : bool :=
  match t, side with
  | HOLD, _ => true
  | LONG, None | SHORT, None => true
  | CLOSE, Some _ => true
  | REVERSE_LONG, Some PosShort | REVERSE_SHORT, Some PosLong => true
  | _, _ => false
  end.

Fixpoint well_formed (side : option Side) (ts : list TradeType) : bool :=
  match ts with
  | [] => true
  | t :: ts' => allowed side t && well_formed (after side t) ts'
  end.

Definition side_of (st : Earlier.State) : option Side :=
  match st with Some (s, _) => Some s | None => None end.

(** For an open long position the stop-loss is at or below the trailing
    stop, for an open short one at or above it. *)
Definition stop_inside_trail (st : Enhanced.State) : bool :=
  match Enhanced.position st with
  | Some PosLong => Py.le (Enhanced.sl st) (Enhanced.tsl st)
  | Some PosShort => Py.ge (Enhanced.sl st) (Enhanced.tsl st)
  | None => true
  end.

End Trace.

(** ** Two runs of the strategy logic

    A table whose first two rows have no ATR yet, and the table of 200
    steady rows with an up-trend on every row. *)
Module Scenario.

Definition late_start (k : nat) : Enhanced.Ind :=
  if (k <? 2)%nat then Sample.with_atr Sample.trending_up nan else Sample.trending_up.

Definition late_run : Output :=
  mkOutput (Sample.flat_market 4)
    (Enhanced.strategy_loop Enhanced.default_params 2 Enhanced.initial_state
       (Enhanced.bars_of (Sample.flat_market 4) late_start)).


Definition trending_run : Output :=
  mkOutput (Enhanced.clean (Sample.flat_market 200))
    (Enhanced.strategy_loop Enhanced.default_params 0 Enhanced.initial_state
       (Enhanced.bars_of (Enhanced.clean (Sample.flat_market 200))
          (fun _ => Sample.trending_up))).

End Scenario.

(** ** Labels of ASCII characters *)
Module Label.

Definition ascii_only (s : string) : bool :=
  forallb (fun c => (nat_of_ascii c <? 128)%nat) (list_ascii_of_string s).

End Label.

(** ** The [vwap] column the frame holds

    Line 63, [df['vwap'].ffill(inplace=True)], fills the object that
    [df['vwap']] returns.  Before pandas 3 that is the frame's own column;
    under copy-on-write (pandas 3) it is an object of its own, and the frame
    keeps the column of line 62. *)
Module Stored.

Definition vwap (copy_on_write : bool) (close volume : list float) : list float :=
  if copy_on_write then Derived.raw_vwap close volume
  else Derived.vwap close volume.

End Stored.

(** ** Halving a mantissa *)
Module Halving.

Local Open Scope Z_scope.

(** What [n] halvings have done to the mantissa [m]: the quotient, and
    where the remainder lies with respect to half of [w], the power of two
    divided by. *)
Definition shifted (m w : Z) (mrs : shr_record) : Prop :=
  0 <= shr_m mrs
  /\ exists r,
       m = shr_m mrs * w + r /\ 0 <= r < w
       /\ (shr_r mrs = false -> shr_s mrs = false -> r = 0)
       /\ (shr_r mrs = false -> 2 * r < w)
       /\ (shr_r mrs = true -> w <= 2 * r)
       /\ (shr_r mrs = true -> shr_s mrs = false -> 2 * r = w).

End Halving.

(** * Facts about binary64 values

    The comparisons and the arithmetic are specified by [SpecFloat]; what
    the proofs below need of them is collected here. *)
Module FloatFacts.

Lemma SFcompare_refl (x : spec_float) :
  x <> S754_nan -> SFcompare x x = Some Eq.
Proof.
  destruct x as [s | s | | s m e]; simpl; intros H; try congruence.
  - now destruct s.
  - rewrite Z.compare_refl, Pos.compare_cont_refl. now destruct s.
Qed.

Lemma SFcompare_nan_r (x : spec_float) : SFcompare x S754_nan = None.
Proof. now destruct x. Qed.

Lemma SFcompare_opp (x y : spec_float) :
  SFcompare y x = option_map CompOpp (SFcompare x y).
Proof.
  destruct x as [s1 | s1 | | s1 m1 e1], y as [s2 | s2 | | s2 m2 e2];
    simpl; try reflexivity;
    try (now destruct s1); try (now destruct s2);
    try (now destruct s1, s2).
  rewrite (Z.compare_antisym e1 e2).
  assert (Hm : Pos.compare_cont Eq m2 m1 = CompOpp (Pos.compare_cont Eq m1 m2))
    by (now rewrite Pos.compare_cont_antisym).
  rewrite Hm.
  destruct s1, s2; simpl; try reflexivity;
    destruct (e1 ?= e2)%Z; simpl; try reflexivity.
Qed.

Lemma is_nan_spec (x : float) :
  is_nan x = true <-> Prim2SF x = S754_nan.
Proof.
  unfold is_nan. rewrite FloatAxioms.eqb_spec. unfold SFeqb.
  split.
  - intros H. destruct (Prim2SF x) as [s | s | | s m e] eqn:E; try reflexivity;
      rewrite SFcompare_refl in H by discriminate; discriminate.
  - intros ->. reflexivity.
Qed.

Lemma not_nan_spec (x : float) :
  is_nan x = false <-> Prim2SF x <> S754_nan.
Proof.
  rewrite <- is_nan_spec. destruct (is_nan x); split; congruence.
Qed.

Lemma ltb_leb (x y : float) : (x <? y)%float = true -> (x <=? y)%float = true.
Proof.
  rewrite FloatAxioms.ltb_spec, FloatAxioms.leb_spec. unfold SFltb, SFleb.
  now destruct (SFcompare (Prim2SF x) (Prim2SF y)) as [[ | | ]|].
Qed.

Lemma leb_refl (x : float) : is_nan x = false -> (x <=? x)%float = true.
Proof.
  intros H. rewrite FloatAxioms.leb_spec. unfold SFleb.
  rewrite SFcompare_refl; [reflexivity|].
  now apply not_nan_spec.
Qed.

Lemma ltb_irrefl (x : float) : (x <? x)%float = false.
Proof.
  rewrite FloatAxioms.ltb_spec. unfold SFltb.
  destruct (Prim2SF x) as [s | s | | s m e] eqn:E; try reflexivity;
    rewrite SFcompare_refl by discriminate; reflexivity.
Qed.

Lemma ltb_asym (x y : float) : (x <? y)%float = true -> (y <? x)%float = false.
Proof.
  rewrite !FloatAxioms.ltb_spec. unfold SFltb.
  rewrite (SFcompare_opp (Prim2SF x) (Prim2SF y)).
  now destruct (SFcompare (Prim2SF x) (Prim2SF y)) as [[ | | ]|].
Qed.

Lemma ltb_nan_r (x y : float) : is_nan y = true -> (x <? y)%float = false.
Proof.
  intros H. apply is_nan_spec in H. rewrite FloatAxioms.ltb_spec, H.
  unfold SFltb. now rewrite SFcompare_nan_r.
Qed.

Lemma ltb_nan_l (x y : float) : is_nan x = true -> (x <? y)%float = false.
Proof.
  intros H. apply is_nan_spec in H. rewrite FloatAxioms.ltb_spec, H.
  reflexivity.
Qed.

(** *** Rounding a non-negative mantissa never gives NaN *)

Lemma shr_1_nonneg mrs : (0 <= shr_m mrs)%Z -> (0 <= shr_m (shr_1 mrs))%Z.
Proof.
  destruct mrs as [m r s]. simpl. intros H.
  destruct m as [ | [q | q | ] | q ]; simpl; lia.
Qed.

Lemma iter_shr_1_nonneg n : forall mrs,
  (0 <= shr_m mrs)%Z -> (0 <= shr_m (SpecFloat.iter_pos shr_1 n mrs))%Z.
Proof.
  induction n as [n IH | n IH | ]; intros mrs H; simpl.
  - apply IH, IH, shr_1_nonneg, H.
  - apply IH, IH, H.
  - apply shr_1_nonneg, H.
Qed.

Lemma shr_nonneg mrs e n :
  (0 <= shr_m mrs)%Z -> (0 <= shr_m (fst (shr mrs e n)))%Z.
Proof.
  intros H. destruct n; simpl; auto using iter_shr_1_nonneg.
Qed.

Lemma shr_m_of_loc m l : shr_m (shr_record_of_loc m l) = m.
Proof. now destruct l as [ | [ | | ]]. Qed.

Lemma shr_fexp_nonneg prec emax m e l :
  (0 <= m)%Z -> (0 <= shr_m (fst (shr_fexp prec emax m e l)))%Z.
Proof.
  intros H. unfold shr_fexp. apply shr_nonneg. now rewrite shr_m_of_loc.
Qed.

Lemma round_nearest_even_nonneg m l :
  (0 <= m)%Z -> (0 <= round_nearest_even m l)%Z.
Proof.
  intros H. destruct l as [ | [ | | ]]; simpl; try lia.
  destruct (Z.even m); lia.
Qed.

Lemma binary_round_aux_not_nan prec emax s m e l :
  (0 <= m)%Z -> binary_round_aux prec emax s m e l <> S754_nan.
Proof.
  intros H. unfold binary_round_aux.
  pose proof (shr_fexp_nonneg prec emax m e l H) as H1.
  destruct (shr_fexp prec emax m e l) as [mrs' e']. simpl in H1.
  pose proof (shr_fexp_nonneg prec emax _ e' loc_Exact
                (round_nearest_even_nonneg _ (loc_of_shr_record mrs') H1)) as H2.
  destruct (shr_fexp prec emax (round_nearest_even _ _) e' loc_Exact) as [mrs'' e''].
  simpl in H2.
  destruct (shr_m mrs'') as [ | q | q ]; try discriminate; try lia.
  now destruct (e'' <=? emax - prec)%Z.
Qed.

Lemma binary_normalize_not_nan prec emax m e z :
  binary_normalize prec emax m e z <> S754_nan.
Proof.
  destruct m as [ | q | q ]; simpl; try discriminate;
    unfold binary_round;
    destruct (shl_align _ _ _) as [mz ez];
    apply binary_round_aux_not_nan; lia.
Qed.

(** *** Arithmetic that stays clear of NaN *)

Lemma finite_cases (x : float) :
  is_finite x = true ->
  (exists s, Prim2SF x = S754_zero s)
  \/ (exists s m e, Prim2SF x = S754_finite s m e).
Proof.
  unfold is_finite, Prim2SF. intros H.
  destruct (is_nan x); [discriminate|].
  destruct (is_infinity x); [discriminate|].
  destruct (is_zero x); [left; eauto|].
  destruct (Z.frexp x) as [r ex].
  destruct (shr_fexp _ _ _ _ _) as [sh e'].
  destruct (shr_m sh); [left | right | left]; eauto.
Qed.

Lemma finite_nonzero_cases (y : float) :
  is_finite y = true -> (y =? 0)%float = false ->
  exists s m e, Prim2SF y = S754_finite s m e.
Proof.
  intros Hf Hz. destruct (finite_cases y Hf) as [[s E] | H]; [|exact H].
  rewrite FloatAxioms.eqb_spec, E in Hz. now destruct s.
Qed.

Lemma is_finite_not_nan (x : float) : is_finite x = true -> is_nan x = false.
Proof. unfold is_finite. now destruct (is_nan x). Qed.

Lemma mul_not_nan (x y : float) :
  is_nan x = false -> is_finite y = true -> (y =? 0)%float = false ->
  is_nan (x * y) = false.
Proof.
  intros Hx Hy Hz. apply not_nan_spec. apply not_nan_spec in Hx.
  destruct (finite_nonzero_cases y Hy Hz) as (sy & my & ey & Ey).
  rewrite FloatAxioms.mul_spec, Ey. unfold SF64mul.
  destruct (Prim2SF x) as [s | s | | s m e]; simpl; try discriminate.
  - congruence.
  - apply binary_round_aux_not_nan. lia.
Qed.

Lemma sub_not_nan (x y : float) :
  is_finite x = true -> is_nan y = false -> is_nan (x - y) = false.
Proof.
  intros Hx Hy. apply not_nan_spec. apply not_nan_spec in Hy.
  rewrite FloatAxioms.sub_spec. unfold SF64sub.
  destruct (finite_cases x Hx) as [[s E] | (s & m & e & E)]; rewrite E;
    destruct (Prim2SF y) as [sy | sy | | sy my ey]; simpl;
    try discriminate; try congruence;
    try (now destruct s, sy);
    apply binary_normalize_not_nan.
Qed.

Lemma add_not_nan (x y : float) :
  is_finite x = true -> is_nan y = false -> is_nan (x + y) = false.
Proof.
  intros Hx Hy. apply not_nan_spec. apply not_nan_spec in Hy.
  rewrite FloatAxioms.add_spec. unfold SF64add.
  destruct (finite_cases x Hx) as [[s E] | (s & m & e & E)]; rewrite E;
    destruct (Prim2SF y) as [sy | sy | | sy my ey]; simpl;
    try discriminate; try congruence;
    try (now destruct s, sy);
    apply binary_normalize_not_nan.
Qed.

(** *** Rounding: how far the result of an addition can be from the exact sum *)

Local Open Scope Z_scope.

Lemma digits2_bounds (p : positive) :
  2 ^ (Zpos (digits2_pos p) - 1) <= Zpos p < 2 ^ Zpos (digits2_pos p).
Proof.
  induction p as [p IH | p IH | ]; simpl digits2_pos.
  - rewrite Pos2Z.inj_succ.
    replace (Z.succ (Zpos (digits2_pos p)) - 1) with (Z.succ (Zpos (digits2_pos p) - 1)) by lia.
    rewrite !Z.pow_succ_r by lia. lia.
  - rewrite Pos2Z.inj_succ.
    replace (Z.succ (Zpos (digits2_pos p)) - 1) with (Z.succ (Zpos (digits2_pos p) - 1)) by lia.
    rewrite !Z.pow_succ_r by lia. lia.
  - simpl. lia.
Qed.

Lemma shifted_start (m : Z) : 0 <= m -> Halving.shifted m 1 (shr_record_of_loc m loc_Exact).
Proof.
  intros H. split; [exact H|]. exists 0. simpl. repeat split; try lia; discriminate.
Qed.

Lemma shifted_step (m w : Z) (mrs : shr_record) :
  0 < w -> Halving.shifted m w mrs -> Halving.shifted m (2 * w) (shr_1 mrs).
Proof.
  intros Hw [Hm (r & E & Hr & H00 & H0 & H1 & H10)].
  destruct mrs as [q rb sb]. cbn [shr_m shr_r shr_s] in *.
  assert (Hs : rb || sb = false -> r = 0).
  { intros Hs. apply orb_false_elim in Hs. destruct Hs. auto. }
  destruct q as [ | [q | q | ] | q ]; unfold Halving.shifted, shr_1;
    cbn [shr_m shr_r shr_s]; try lia.
  - split; [lia|]. exists r. repeat split; try lia; try discriminate.
    intros _. exact Hs.
  - split; [lia|]. exists (w + r). repeat split; try lia; try discriminate.
    intros _ Hz. rewrite (Hs Hz). lia.
  - split; [lia|]. exists r. repeat split; try lia; try discriminate.
    intros _. exact Hs.
  - split; [lia|]. exists (w + r). repeat split; try lia; try discriminate.
    intros _ Hz. rewrite (Hs Hz). lia.
Qed.

Lemma pow2_xO (n : positive) : 2 ^ Zpos n~0 = 2 ^ Zpos n * 2 ^ Zpos n.
Proof. rewrite <- Z.pow_add_r by lia. f_equal. lia. Qed.

Lemma pow2_xI (n : positive) : 2 ^ Zpos n~1 = 2 * (2 ^ Zpos n * 2 ^ Zpos n).
Proof.
  rewrite <- Z.pow_add_r by lia. rewrite <- Z.pow_succ_r by lia. f_equal. lia.
Qed.

Lemma pow2_pos (n : Z) : 0 <= n -> 0 < 2 ^ n.
Proof. intros H. apply Z.pow_pos_nonneg; lia. Qed.

Lemma shifted_iter (m : Z) (n : positive) : forall w mrs,
  0 < w -> Halving.shifted m w mrs ->
  Halving.shifted m (w * 2 ^ Zpos n) (SpecFloat.iter_pos shr_1 n mrs).
Proof.
  induction n as [n IH | n IH | ]; intros w mrs Hw H; simpl SpecFloat.iter_pos.
  - rewrite pow2_xI.
    replace (w * (2 * (2 ^ Zpos n * 2 ^ Zpos n)))
      with (2 * w * 2 ^ Zpos n * 2 ^ Zpos n) by ring.
    pose proof (pow2_pos (Zpos n) ltac:(lia)).
    apply IH; [nia|]. apply IH; [lia|]. now apply shifted_step.
  - rewrite pow2_xO.
    replace (w * (2 ^ Zpos n * 2 ^ Zpos n)) with (w * 2 ^ Zpos n * 2 ^ Zpos n) by ring.
    pose proof (pow2_pos (Zpos n) ltac:(lia)).
    apply IH; [nia|]. now apply IH.
  - rewrite Z.pow_1_r. replace (w * 2) with (2 * w) by ring.
    now apply shifted_step.
Qed.

(** Rounding to nearest after the halvings: at most half of [w] away. *)
Lemma round_nearest_even_error (m w : Z) (mrs : shr_record) :
  Halving.shifted m w mrs ->
  let m1 := round_nearest_even (shr_m mrs) (loc_of_shr_record mrs) in
  shr_m mrs <= m1 <= shr_m mrs + 1 /\ 2 * Z.abs (m1 * w - m) <= w.
Proof.
  intros [Hm (r & E & Hr & H00 & H0 & H1 & H10)].
  destruct mrs as [q rb sb]. cbn [shr_m shr_r shr_s] in *.
  destruct rb, sb; unfold loc_of_shr_record, round_nearest_even; cbn zeta.
  - specialize (H1 eq_refl). split; [lia|]. nia.
  - specialize (H1 eq_refl). specialize (H10 eq_refl eq_refl).
    destruct (Z.even q); split; try lia; nia.
  - specialize (H0 eq_refl). split; [lia|]. nia.
  - specialize (H00 eq_refl eq_refl). split; [lia|]. nia.
Qed.

Lemma fexp_eq (e : Z) : fexp prec emax e = Z.max (e - 53) (-1074).
Proof. reflexivity. Qed.

Lemma shifted_zero (w : Z) (mrs : shr_record) :
  0 < w -> Halving.shifted 0 w mrs -> shr_m mrs = 0.
Proof. intros Hw [Hm (r & E & Hr & _)]. nia. Qed.

Lemma shr_zero (e n : Z) :
  shr_m (fst (shr (shr_record_of_loc 0 loc_Exact) e n)) = 0.
Proof.
  destruct n as [ | n | n ]; try reflexivity.
  cbn [shr fst].
  apply (shifted_zero (1 * 2 ^ Zpos n)).
  - pose proof (pow2_pos (Zpos n) ltac:(lia)). lia.
  - apply shifted_iter; [lia|]. now apply shifted_start.
Qed.

Lemma digits2_le (p : positive) (k : Z) :
  0 <= k -> Zpos p < 2 ^ k -> Zpos (digits2_pos p) <= k.
Proof.
  intros Hk Hp. pose proof (digits2_bounds p) as [Hlo _].
  destruct (Z_lt_le_dec k (Zpos (digits2_pos p))) as [Hlt|]; [|assumption].
  assert (2 ^ k <= 2 ^ (Zpos (digits2_pos p) - 1))
    by (apply Z.pow_le_mono_r; lia).
  lia.
Qed.

Lemma binary_round_aux_error (sx : bool) (m : positive) (e0 : Z)
  (s : bool) (mr : positive) (er : Z) :
  binary_round_aux prec emax sx (Zpos m) e0 loc_Exact = S754_finite s mr er ->
  s = sx /\ e0 <= er
  /\ 2 * Z.abs (Zpos mr * 2 ^ (er - e0) - Zpos m) <= 2 ^ (er - e0).
Proof.
  unfold binary_round_aux, shr_fexp. rewrite !fexp_eq. cbn [Zdigits2].
  pose proof (digits2_bounds m) as Hd.
  set (dm := Zpos (digits2_pos m)) in *.
  destruct (Z.max (dm + e0 - 53) (-1074) - e0) as [ | n | n ] eqn:En.
  - cbn [shr shr_record_of_loc loc_of_shr_record shr_m round_nearest_even].
    rewrite fexp_eq. cbn [Zdigits2]. fold dm. rewrite En. cbn [shr shr_m].
    destruct (e0 <=? emax - prec); intros [= <- <- <-].
    rewrite Z.sub_diag. change (2 ^ 0) with 1.
    split; [reflexivity|]. lia.
  - cbn [shr].
    assert (Hsh : Halving.shifted (Zpos m) (1 * 2 ^ Zpos n)
                    (SpecFloat.iter_pos shr_1 n (shr_record_of_loc (Zpos m) loc_Exact)))
      by (apply shifted_iter; [lia | apply shifted_start; lia]).
    rewrite Z.mul_1_l in Hsh.
    set (mrs' := SpecFloat.iter_pos shr_1 n _) in *.
    pose proof (round_nearest_even_error _ _ _ Hsh) as [Hm1 Herr].
    cbv zeta in Hm1, Herr.
    set (m1 := round_nearest_even (shr_m mrs') (loc_of_shr_record mrs')) in *.
    destruct Hsh as [Hq (r & E & Hr & _)].
    pose proof (pow2_pos (Zpos n) ltac:(lia)) as Hw.
    assert (Hq53 : shr_m mrs' < 2 ^ 53).
    { assert (2 ^ dm <= 2 ^ (53 + Zpos n)) by (apply Z.pow_le_mono_r; lia).
      rewrite Z.pow_add_r in H by lia. nia. }
    rewrite fexp_eq.
    destruct m1 as [ | p1 | p1 ] eqn:Em1; [| |lia].
    + pose proof (shr_zero (e0 + Zpos n) (Z.max (Zdigits2 0 + (e0 + Zpos n) - 53) (-1074) - (e0 + Zpos n))) as Hz.
      destruct (shr _ _ _) as [mrs'' e'']. cbn [fst] in Hz. rewrite Hz. discriminate.
    + cbn [Zdigits2].
      destruct (Z_lt_le_dec (Zpos p1) (2 ^ 53)) as [Hlt | Hge].
      * pose proof (digits2_le p1 53 ltac:(lia) Hlt) as Hd1.
        destruct (Z.max (Zpos (digits2_pos p1) + (e0 + Zpos n) - 53) (-1074)
                  - (e0 + Zpos n)) as [ | n2 | n2 ] eqn:En2; [| lia |];
          cbn [shr shr_record_of_loc shr_m];
          (destruct (e0 + Zpos n <=? emax - prec); intros [= <- <- <-]);
          (split; [reflexivity|]; split; [lia|]);
          replace (e0 + Zpos n - e0) with (Zpos n) by lia; exact Herr.
      * assert (Hp1 : p1 = 9007199254740992%positive).
        { change (2 ^ 53) with 9007199254740992 in *. lia. }
        subst p1.
        replace (Z.max (Zpos (digits2_pos 9007199254740992) + (e0 + Zpos n) - 53) (-1074)
                 - (e0 + Zpos n)) with 1
          by (change (Zpos (digits2_pos 9007199254740992)) with 54; lia).
        cbn [shr SpecFloat.iter_pos shr_record_of_loc shr_1 shr_m].
        destruct (e0 + Zpos n + 1 <=? emax - prec); intros [= <- <- <-].
        split; [reflexivity|]. split; [lia|].
        replace (e0 + Zpos n + 1 - e0) with (Zpos n + 1) by lia.
        rewrite Z.pow_add_r by lia. rewrite Z.pow_1_r.
        change (Zpos 9007199254740992) with (2 * 4503599627370496) in Herr.
        lia.
  - cbn [shr shr_record_of_loc loc_of_shr_record shr_m round_nearest_even].
    rewrite fexp_eq. cbn [Zdigits2]. fold dm. rewrite En. cbn [shr shr_m].
    destruct (e0 <=? emax - prec); intros [= <- <- <-].
    rewrite Z.sub_diag. change (2 ^ 0) with 1.
    split; [reflexivity|]. lia.
Qed.

Lemma iter_xO (m d : positive) : Zpos (Pos.iter xO m d) = Zpos m * 2 ^ Zpos d.
Proof.
  induction d as [|d IH] using Pos.peano_ind.
  - simpl Pos.iter. rewrite Z.pow_1_r. lia.
  - rewrite Pos.iter_succ, Pos2Z.inj_succ, Z.pow_succ_r by lia.
    rewrite Pos2Z.inj_xO, IH. ring.
Qed.

Lemma shl_align_value (mx : positive) (ex ex' : Z) :
  snd (shl_align mx ex ex') <= ex
  /\ Zpos (fst (shl_align mx ex ex'))
     = Zpos mx * 2 ^ (ex - snd (shl_align mx ex ex')).
Proof.
  unfold shl_align. destruct (ex' - ex) as [ | d | d ] eqn:E; cbn [fst snd].
  - rewrite Z.sub_diag. change (2 ^ 0) with 1. lia.
  - rewrite Z.sub_diag. change (2 ^ 0) with 1. lia.
  - split; [lia|]. rewrite iter_xO. f_equal. f_equal. lia.
Qed.

Lemma shl_align_down (mx : positive) (ex ex' : Z) :
  ex' <= ex ->
  Zpos (fst (shl_align mx ex ex')) = Zpos mx * 2 ^ (ex - ex').
Proof.
  intros H. unfold shl_align. destruct (ex' - ex) as [ | d | d ] eqn:E; cbn [fst].
  - replace (ex - ex') with 0 by lia. change (2 ^ 0) with 1. lia.
  - lia.
  - rewrite iter_xO. f_equal. f_equal. lia.
Qed.

(** The result of rounding [mx * 2^ex]: within half a unit of its own last
    place. Everything is counted in units of [2^ez], for an [ez] below the
    exponents involved. *)
Lemma binary_round_error (sx : bool) (mx : positive) (ex : Z)
  (s : bool) (mr : positive) (er : Z) :
  binary_round prec emax sx mx ex = S754_finite s mr er ->
  s = sx
  /\ exists ez, ez <= ex /\ ez <= er
       /\ 2 * Z.abs (Zpos mr * 2 ^ (er - ez) - Zpos mx * 2 ^ (ex - ez))
          <= 2 ^ (er - ez).
Proof.
  unfold binary_round.
  pose proof (shl_align_value mx ex (fexp prec emax (Zpos (digits2_pos mx) + ex)))
    as [Hle Hval].
  destruct (shl_align mx ex _) as [mz ez]. cbn [fst snd] in Hle, Hval.
  intros H. apply binary_round_aux_error in H. destruct H as (Hs & Her & Herr).
  split; [exact Hs|]. exists ez. rewrite <- Hval. auto.
Qed.

Lemma binary_normalize_error (M ez0 : Z) (z s : bool) (mr : positive) (er : Z) :
  binary_normalize prec emax M ez0 z = S754_finite s mr er ->
  (if s then M < 0 else 0 < M)
  /\ exists ez, ez <= ez0 /\ ez <= er
       /\ 2 * Z.abs (Zpos mr * 2 ^ (er - ez) - Z.abs M * 2 ^ (ez0 - ez))
          <= 2 ^ (er - ez).
Proof.
  destruct M as [ | p | p ]; cbn [binary_normalize]; [discriminate| |];
    intros H; apply binary_round_error in H; destruct H as (-> & H);
    (split; [lia|]); exact H.
Qed.

(** A sum that rounds back to one of its terms: the other term is at most
    half a unit in the last place of the result. *)
Lemma absorbed_term (s : bool) (m : positive) (e ez0 M delta : Z) (z : bool) :
  ez0 <= e ->
  M = cond_Zopp s (Zpos m * 2 ^ (e - ez0)) + delta ->
  binary_normalize prec emax M ez0 z = S754_finite s m e ->
  2 * Z.abs delta <= 2 ^ (e - ez0).
Proof.
  intros Hle HM H. apply binary_normalize_error in H.
  destruct H as (Hsign & ez & H1 & H2 & Herr).
  pose proof (pow2_pos (ez0 - ez) ltac:(lia)) as Hk.
  pose proof (pow2_pos (e - ez0) ltac:(lia)) as Hj.
  replace (e - ez) with ((e - ez0) + (ez0 - ez)) in Herr by lia.
  rewrite Z.pow_add_r in Herr by lia.
  set (A := 2 ^ (ez0 - ez)) in *. set (B := 2 ^ (e - ez0)) in *.
  assert (Hd : Z.abs (Zpos m * (B * A) - Z.abs M * A)
               = Z.abs delta * A).
  { replace (Zpos m * (B * A) - Z.abs M * A) with ((Zpos m * B - Z.abs M) * A) by ring.
    rewrite Z.abs_mul, (Z.abs_eq A) by lia. f_equal.
    destruct s; unfold cond_Zopp in HM; lia. }
  rewrite Hd in Herr. nia.
Qed.

Lemma sub_absorbs (s : bool) (m : positive) (e : Z)
  (sd : bool) (md : positive) (ed : Z) :
  SFsub prec emax (S754_finite s m e) (S754_finite sd md ed) = S754_finite s m e ->
  2 * (Zpos md * 2 ^ (ed - Z.min e ed)) <= 2 ^ (e - Z.min e ed).
Proof.
  cbn [SFsub]. cbv zeta.
  rewrite !shl_align_down by lia.
  intros H.
  apply (absorbed_term s m e (Z.min e ed) _
           (- cond_Zopp sd (Zpos md * 2 ^ (ed - Z.min e ed)))) in H; [|lia|lia].
  pose proof (pow2_pos (ed - Z.min e ed) ltac:(lia)).
  destruct sd; unfold cond_Zopp in H; lia.
Qed.

Lemma add_absorbs (s : bool) (m : positive) (e : Z)
  (sd : bool) (md : positive) (ed : Z) :
  SFadd prec emax (S754_finite s m e) (S754_finite sd md ed) = S754_finite s m e ->
  2 * (Zpos md * 2 ^ (ed - Z.min e ed)) <= 2 ^ (e - Z.min e ed).
Proof.
  cbn [SFadd]. cbv zeta.
  rewrite !shl_align_down by lia.
  intros H.
  apply (absorbed_term s m e (Z.min e ed) _
           (cond_Zopp sd (Zpos md * 2 ^ (ed - Z.min e ed)))) in H; [|lia|lia].
  pose proof (pow2_pos (ed - Z.min e ed) ltac:(lia)).
  destruct sd; unfold cond_Zopp in H; lia.
Qed.

(** A term with a full 53-bit mantissa above [2^52] is more than half a
    unit in the last place of any value whose exponent is at most 53 above
    its own. *)
Lemma too_large_to_absorb (md : positive) (e ed : Z) :
  2 ^ 52 < Zpos md -> e <= ed + 53 ->
  ~ 2 * (Zpos md * 2 ^ (ed - Z.min e ed)) <= 2 ^ (e - Z.min e ed).
Proof.
  intros Hmd He H.
  destruct (Z_le_gt_dec e ed) as [Hle | Hgt].
  - rewrite Z.min_l in H by lia. rewrite Z.sub_diag in H. change (2 ^ 0) with 1 in H.
    pose proof (pow2_pos (ed - e) ltac:(lia)). nia.
  - rewrite Z.min_r in H by lia. rewrite Z.sub_diag in H. change (2 ^ 0) with 1 in H.
    assert (2 ^ (e - ed) <= 2 ^ 53) by (apply Z.pow_le_mono_r; lia).
    change (2 ^ 53) with (2 * 2 ^ 52) in H0. lia.
Qed.

Lemma SFeqb_true (a b : spec_float) :
  SFeqb a b = true ->
  a = b \/ exists s1 s2, a = S754_zero s1 /\ b = S754_zero s2.
Proof.
  unfold SFeqb.
  destruct a as [s1 | s1 | | s1 m1 e1], b as [s2 | s2 | | s2 m2 e2];
    cbn [SFcompare]; intros H; try discriminate;
    try (right; eauto; fail);
    try (destruct s1; discriminate);
    try (destruct s2; discriminate).
  - destruct s1, s2; try discriminate; now left.
  - destruct s1, s2; try discriminate;
      (destruct (e1 ?= e2) eqn:Ee; try discriminate);
      apply Z.compare_eq in Ee; subst e2;
      (destruct (Pos.compare_cont Eq m1 m2) eqn:Em; try discriminate);
      apply Pos.compare_eq in Em; subst m2; now left.
Qed.

Lemma below_price_bound (x : float) :
  (abs x <? Spec.price_bound)%float = true ->
  (exists s, Prim2SF x = S754_zero s)
  \/ (exists s m e, Prim2SF x = S754_finite s m e /\ e <= -11).
Proof.
  rewrite FloatAxioms.ltb_spec, FloatAxioms.abs_spec.
  change (Prim2SF Spec.price_bound) with (S754_finite false 4503599627370496 (-11)).
  unfold SFltb.
  destruct (Prim2SF x) as [s | s | | s m e]; cbn [SFabs SFcompare]; try discriminate.
  - left. eauto.
  - intros H. right. exists s, m, e. split; [reflexivity|].
    destruct (Z.compare_spec e (-11)) as [Ee | Ee | Ee]; try discriminate; lia.
Qed.

(** Below [2^41] in magnitude a value moves when a term with exponent -64
    and a mantissa above [2^52] is subtracted from it or added to it. *)
Lemma small_value_moves (x d : float) (sd : bool) (md : positive) :
  (abs x <? Spec.price_bound)%float = true ->
  Prim2SF d = S754_finite sd md (-64) -> 2 ^ 52 < Zpos md ->
  (x - d =? x)%float = false /\ (x + d =? x)%float = false.
Proof.
  intros Hx Hd Hmd.
  rewrite !FloatAxioms.eqb_spec, FloatAxioms.sub_spec, FloatAxioms.add_spec, Hd.
  unfold SF64sub, SF64add.
  destruct (below_price_bound x Hx) as [[s E] | (s & m & e & E & He)]; rewrite E.
  - split; cbn [SFsub SFadd]; unfold SFeqb; cbn [SFcompare];
      repeat match goal with |- context [if ?c then _ else _] => destruct c end;
      reflexivity.
  - split.
    + destruct (SFeqb _ _) eqn:Eq; [|reflexivity]. exfalso.
      apply SFeqb_true in Eq. destruct Eq as [Eq | (s1 & s2 & _ & Eq)]; [|discriminate].
      apply sub_absorbs in Eq. revert Eq. apply too_large_to_absorb; lia.
    + destruct (SFeqb _ _) eqn:Eq; [|reflexivity]. exfalso.
      apply SFeqb_true in Eq. destruct Eq as [Eq | (s1 & s2 & _ & Eq)]; [|discriminate].
      apply add_absorbs in Eq. revert Eq. apply too_large_to_absorb; lia.
Qed.

Local Close Scope Z_scope.

End FloatFacts.

(** * The exit logic of the later variant *)

Lemma exit_arm_long_priority (st : Enhanced.State) (b : Enhanced.Bar) :
  Enhanced.exit_arm_long st b = Spec.first_triggered (Spec.exit_tests PosLong st b).
Proof.
  unfold Enhanced.exit_arm_long. simpl.
  repeat match goal with |- context [if ?c then _ else _] => destruct c end;
    reflexivity.
Qed.

Lemma exit_arm_short_priority (st : Enhanced.State) (b : Enhanced.Bar) :
  Enhanced.exit_arm_short st b = Spec.first_triggered (Spec.exit_tests PosShort st b).
Proof.
  unfold Enhanced.exit_arm_short. simpl.
  repeat match goal with |- context [if ?c then _ else _] => destruct c end;
    reflexivity.
Qed.

Lemma step_on_exit (p : Enhanced.Params) (st : Enhanced.State) (b : Enhanced.Bar) :
  Enhanced.essential_isnull (Enhanced.ind b) = false ->
  Enhanced.exit_triggered st b = true ->
  Enhanced.step p st b = (Enhanced.initial_state, Enhanced.levels_of CLOSE st).
Proof.
  intros Hn He. unfold Enhanced.step. now rewrite Hn, He.
Qed.

(** C1. While a position is open, a bar that passes the safety check takes
    the first exit arm whose test holds, in the order trailing stop,
    stop-loss, take-profit (tested on the bar's low and high), trend flip.
    Whatever the arm, the row gets [CLOSE] with the levels held before the
    exit, the state is reset (no position, NaN levels), and the entry and
    reversal logic has no part in the result. *)
Theorem exit_priority (p : Enhanced.Params) (st : Enhanced.State)
  (b : Enhanced.Bar) (side : Side) :
  Enhanced.position st = Some side ->
  Enhanced.essential_isnull (Enhanced.ind b) = false ->
  Enhanced.exit_arm st b = Spec.first_triggered (Spec.exit_tests side st b)
  /\ (forall arm, Enhanced.exit_arm st b = Some arm ->
        Enhanced.step p st b
        = ({| Enhanced.position := None; Enhanced.entry_price := nan;
              Enhanced.sl := nan; Enhanced.tp := nan; Enhanced.tsl := nan |},
           {| trade_type := CLOSE; TP := Enhanced.tp st; SL := Enhanced.sl st;
              TSL := Enhanced.tsl st |}))
  /\ (Enhanced.exit_arm st b = None ->
        trade_type (snd (Enhanced.step p st b)) <> CLOSE).
Proof.
  intros Hpos Hn. split; [|split].
  - unfold Enhanced.exit_arm. rewrite Hpos. destruct side.
    + apply exit_arm_long_priority.
    + apply exit_arm_short_priority.
  - intros arm Harm. apply step_on_exit; [exact Hn|].
    unfold Enhanced.exit_triggered. now rewrite Harm.
  - intros Hnone. unfold Enhanced.step, Enhanced.exit_triggered.
    rewrite Hn, Hnone. unfold Enhanced.execute_trades. simpl. rewrite Hpos.
    destruct (Enhanced.allow_reversals p); [destruct side|]; simpl;
      repeat match goal with |- context [if ?c then _ else _] => destruct c end;
      simpl; discriminate.
Qed.

(** A long position whose stop-loss and take-profit are both inside the
    bar's range: the trailing stop, first in the order, is the arm taken. *)
Lemma exit_priority_witness :
  Enhanced.exit_arm Sample.long_100 Sample.wide_bar = Some Enhanced.ArmTrailingStop
  /\ Enhanced.step Enhanced.default_params Sample.long_100 Sample.wide_bar
     = (Enhanced.initial_state, mkDecision CLOSE 103 97.5 97.5).
Proof.
  destruct (exit_priority Enhanced.default_params Sample.long_100 Sample.wide_bar
              PosLong eq_refl eq_refl) as (Harm & Hclose & _).
  split.
  - exact Harm.
  - exact (Hclose Enhanced.ArmTrailingStop Harm).
Defined.

(** * Opposite signals and reversals *)

(** A long signal needs the fast average above the slow one, which is the
    trend-flip exit test of a short position; and the other way round. *)
Lemma long_signal_trend (p : Enhanced.Params) (b : Enhanced.Bar) :
  Enhanced.long_signal p b = true ->
  Py.gt (Enhanced.ema_50 (Enhanced.ind b)) (Enhanced.ema_200 (Enhanced.ind b)) = true.
Proof.
  unfold Enhanced.long_signal. intros H.
  repeat (apply andb_prop in H; destruct H as [H _]). exact H.
Qed.

Lemma short_signal_trend (p : Enhanced.Params) (b : Enhanced.Bar) :
  Enhanced.short_signal p b = true ->
  Py.lt (Enhanced.ema_50 (Enhanced.ind b)) (Enhanced.ema_200 (Enhanced.ind b)) = true.
Proof.
  unfold Enhanced.short_signal. intros H.
  repeat (apply andb_prop in H; destruct H as [H _]). exact H.
Qed.

Lemma opposite_signal_exits (p : Enhanced.Params) (st : Enhanced.State)
  (b : Enhanced.Bar) :
  (Enhanced.position st = Some PosShort /\ Enhanced.long_signal p b = true)
  \/ (Enhanced.position st = Some PosLong /\ Enhanced.short_signal p b = true) ->
  Enhanced.exit_triggered st b = true.
Proof.
  unfold Enhanced.exit_triggered, Enhanced.exit_arm.
  intros [[Hpos Hsig] | [Hpos Hsig]]; rewrite Hpos.
  - apply long_signal_trend in Hsig.
    unfold Enhanced.exit_arm_short.
    destruct (Py.ge (Enhanced.high b) (Enhanced.tsl st)); [reflexivity|].
    destruct (Py.ge (Enhanced.high b) (Enhanced.sl st)); [reflexivity|].
    destruct (Py.le (Enhanced.low b) (Enhanced.tp st)); [reflexivity|].
    now rewrite Hsig.
  - apply short_signal_trend in Hsig.
    unfold Enhanced.exit_arm_long.
    destruct (Py.le (Enhanced.low b) (Enhanced.tsl st)); [reflexivity|].
    destruct (Py.le (Enhanced.low b) (Enhanced.sl st)); [reflexivity|].
    destruct (Py.ge (Enhanced.high b) (Enhanced.tp st)); [reflexivity|].
    now rewrite Hsig.
Qed.

(** The later variant never stamps a reversal, whatever [allow_reversals]
    says: the exit logic has closed the position before the reversal branch
    could see the opposite signal. *)
Lemma no_reversal_stamped (p : Enhanced.Params) (st : Enhanced.State)
  (b : Enhanced.Bar) :
  trade_type (snd (Enhanced.step p st b)) <> REVERSE_LONG
  /\ trade_type (snd (Enhanced.step p st b)) <> REVERSE_SHORT.
Proof.
  unfold Enhanced.step.
  destruct (Enhanced.essential_isnull (Enhanced.ind b)); [split; discriminate|].
  destruct (Enhanced.exit_triggered st b) eqn:He; [split; discriminate|].
  unfold Enhanced.execute_trades. simpl.
  destruct (Enhanced.position st) as [[|]|] eqn:Hpos.
  - destruct (Enhanced.allow_reversals p); [|split; discriminate].
    destruct (Enhanced.short_signal p b) eqn:Hs; [|split; discriminate].
    rewrite (opposite_signal_exits p st b) in He by (right; split; assumption).
    discriminate.
  - destruct (Enhanced.allow_reversals p); [|split; discriminate].
    destruct (Enhanced.long_signal p b) eqn:Hs; [|split; discriminate].
    rewrite (opposite_signal_exits p st b) in He by (left; split; assumption).
    discriminate.
  - destruct (Enhanced.long_signal p b); [split; discriminate|].
    destruct (Enhanced.short_signal p b); split; discriminate.
Qed.

(** The earlier variant, which has no [allow_reversals] switch, does
    reverse on the bar of the opposite signal. *)
Lemma earlier_variant_reverses (tsl : float) (b : Earlier.Bar) :
  Earlier.hit_tsl (Some (PosShort, tsl)) b = false ->
  Earlier.long_signal b = true ->
  Earlier.step (Some (PosShort, tsl)) b = Earlier.enter_long REVERSE_LONG b.
Proof.
  intros Hh Hs. unfold Earlier.step. now rewrite Hh, Hs.
Qed.

(** C2, as stated, fails: a short position meets a bar with the long
    signal; with [allow_reversals] false the row is not [HOLD] and the
    position is not kept, and with [allow_reversals] true the row is not
    [REVERSE_LONG] and no long position is opened.  Both times the bar is
    closed by the trend-flip exit. *)
Lemma opposite_signal_counterexample :
  Enhanced.position Sample.short_100 = Some PosShort
  /\ Enhanced.essential_isnull (Enhanced.ind Sample.up_bar) = false
  /\ Enhanced.long_signal Enhanced.default_params Sample.up_bar = true
  /\ Enhanced.allow_reversals Enhanced.default_params = false
  /\ trade_type (snd (Enhanced.step Enhanced.default_params Sample.short_100 Sample.up_bar))
     <> HOLD
  /\ fst (Enhanced.step Enhanced.default_params Sample.short_100 Sample.up_bar)
     <> Sample.short_100
  /\ Enhanced.long_signal Sample.reversing_params Sample.up_bar = true
  /\ Enhanced.allow_reversals Sample.reversing_params = true
  /\ trade_type (snd (Enhanced.step Sample.reversing_params Sample.short_100 Sample.up_bar))
     <> REVERSE_LONG
  /\ Enhanced.position
       (fst (Enhanced.step Sample.reversing_params Sample.short_100 Sample.up_bar))
     <> Some PosLong.
Proof.
  repeat split; try reflexivity; vm_compute; discriminate.
Qed.

(** C2, amended. With [allow_reversals] false, a bar that passes the safety
    check and carries the signal opposite to the open position is closed on
    that bar: the row gets [CLOSE] with the levels held before, and the
    state is reset, so a new entry can only come on a later bar. *)
Theorem opposite_signal_closes (p : Enhanced.Params) (st : Enhanced.State)
  (b : Enhanced.Bar) :
  Enhanced.allow_reversals p = false ->
  Enhanced.essential_isnull (Enhanced.ind b) = false ->
  (Enhanced.position st = Some PosShort /\ Enhanced.long_signal p b = true)
  \/ (Enhanced.position st = Some PosLong /\ Enhanced.short_signal p b = true) ->
  Enhanced.step p st b = (Enhanced.initial_state, Enhanced.levels_of CLOSE st).
Proof.
  intros _ Hn Hopp. apply step_on_exit; [exact Hn|].
  now apply opposite_signal_exits with (p := p).
Qed.

Lemma opposite_signal_closes_witness :
  Enhanced.step Enhanced.default_params Sample.short_100 Sample.up_bar
  = (Enhanced.initial_state, mkDecision CLOSE 97 102.5 102.5).
Proof.
  apply (opposite_signal_closes Enhanced.default_params Sample.short_100 Sample.up_bar).
  - reflexivity.
  - reflexivity.
  - left. split; reflexivity.
Defined.

(** * The trailing stop *)

Lemma ratchet_long (p : Enhanced.Params) (st : Enhanced.State) (b : Enhanced.Bar) :
  Enhanced.position st = Some PosLong ->
  Py.lt (Enhanced.ratchet p st b) (Enhanced.tsl st) = false
  /\ (Py.isna (Enhanced.tsl st) = false ->
      Py.le (Enhanced.tsl st) (Enhanced.ratchet p st b) = true).
Proof.
  intros Hpos. unfold Enhanced.ratchet, Py.lt, Py.le, Py.gt, Py.isna. rewrite Hpos.
  destruct (is_nan (Enhanced.tsl st)) eqn:Hnan; simpl.
  - split; [now apply FloatFacts.ltb_nan_r | discriminate].
  - match goal with |- context [if ?c then _ else _] => destruct c eqn:Hc end.
    + split; [now apply FloatFacts.ltb_asym | intros _; now apply FloatFacts.ltb_leb].
    + split; [apply FloatFacts.ltb_irrefl | intros _; now apply FloatFacts.leb_refl].
Qed.

Lemma ratchet_short (p : Enhanced.Params) (st : Enhanced.State) (b : Enhanced.Bar) :
  Enhanced.position st = Some PosShort ->
  Py.gt (Enhanced.ratchet p st b) (Enhanced.tsl st) = false
  /\ (Py.isna (Enhanced.tsl st) = false ->
      Py.ge (Enhanced.tsl st) (Enhanced.ratchet p st b) = true).
Proof.
  intros Hpos. unfold Enhanced.ratchet, Py.lt, Py.ge, Py.gt, Py.isna. rewrite Hpos.
  destruct (is_nan (Enhanced.tsl st)) eqn:Hnan; simpl.
  - split; [now apply FloatFacts.ltb_nan_l | discriminate].
  - match goal with |- context [if ?c then _ else _] => destruct c eqn:Hc end.
    + split; [now apply FloatFacts.ltb_asym | intros _; now apply FloatFacts.ltb_leb].
    + split; [apply FloatFacts.ltb_irrefl | intros _; now apply FloatFacts.leb_refl].
Qed.

(** A position that is still open on the same side after a bar was either
    left alone by the safety check or went through the ratchet. *)
Lemma held_position (p : Enhanced.Params) (st : Enhanced.State) (b : Enhanced.Bar)
  (side : Side) :
  Enhanced.position st = Some side ->
  Enhanced.position (fst (Enhanced.step p st b)) = Some side ->
  Enhanced.tsl (fst (Enhanced.step p st b)) = Enhanced.tsl st
  \/ Enhanced.tsl (fst (Enhanced.step p st b)) = Enhanced.ratchet p st b.
Proof.
  intros Hpos. unfold Enhanced.step.
  destruct (Enhanced.essential_isnull (Enhanced.ind b)); [now left|].
  destruct (Enhanced.exit_triggered st b); [discriminate|].
  unfold Enhanced.execute_trades. simpl. rewrite Hpos.
  destruct (Enhanced.allow_reversals p); [|now right].
  destruct side.
  - destruct (Enhanced.short_signal p b); [discriminate | now right].
  - destruct (Enhanced.long_signal p b); [discriminate | now right].
Qed.

(** The [TSL] cell of a row that leaves a position open is the trailing
    stop of the state after the row. *)
Lemma recorded_tsl (p : Enhanced.Params) (st : Enhanced.State) (b : Enhanced.Bar) :
  Enhanced.position (fst (Enhanced.step p st b)) <> None ->
  TSL (snd (Enhanced.step p st b)) = Enhanced.tsl (fst (Enhanced.step p st b)).
Proof.
  unfold Enhanced.step.
  destruct (Enhanced.essential_isnull (Enhanced.ind b)); [reflexivity|].
  destruct (Enhanced.exit_triggered st b); [simpl; congruence|].
  now destruct (Enhanced.execute_trades _ _ _).
Qed.

Lemma never_below (x y z : float) :
  Py.lt y x = false /\ (Py.isna x = false -> Py.le x y = true) ->
  z = x \/ z = y ->
  Py.lt z x = false /\ (Py.isna x = false -> Py.le x z = true).
Proof.
  intros [H1 H2] [-> | ->]; [|now split].
  split; [apply FloatFacts.ltb_irrefl | apply FloatFacts.leb_refl].
Qed.

Lemma never_above (x y z : float) :
  Py.gt y x = false /\ (Py.isna x = false -> Py.ge x y = true) ->
  z = x \/ z = y ->
  Py.gt z x = false /\ (Py.isna x = false -> Py.ge x z = true).
Proof.
  intros [H1 H2] [-> | ->]; [|now split].
  split; [apply FloatFacts.ltb_irrefl | apply FloatFacts.leb_refl].
Qed.

(** C3. Take two consecutive bars after which the same long position is
    open (no exit on the second bar).  The [TSL] recorded on the second bar
    is never below the one recorded on the first: it does not compare
    lower, and it compares greater or equal whenever the first one is
    defined.  For a short position the second [TSL] is never above the
    first. *)
Theorem trailing_stop_monotone (p : Enhanced.Params) (st0 : Enhanced.State)
  (b1 b2 : Enhanced.Bar) :
  let r1 := Enhanced.step p st0 b1 in
  let r2 := Enhanced.step p (fst r1) b2 in
  (Enhanced.position (fst r1) = Some PosLong ->
   Enhanced.position (fst r2) = Some PosLong ->
   Py.lt (TSL (snd r2)) (TSL (snd r1)) = false
   /\ (Py.isna (TSL (snd r1)) = false -> Py.le (TSL (snd r1)) (TSL (snd r2)) = true))
  /\ (Enhanced.position (fst r1) = Some PosShort ->
      Enhanced.position (fst r2) = Some PosShort ->
      Py.gt (TSL (snd r2)) (TSL (snd r1)) = false
      /\ (Py.isna (TSL (snd r1)) = false -> Py.ge (TSL (snd r1)) (TSL (snd r2)) = true)).
Proof.
  intros r1 r2. subst r1 r2. split; intros H1 H2.
  - rewrite !recorded_tsl by congruence.
    apply never_below with (y := Enhanced.ratchet p (fst (Enhanced.step p st0 b1)) b2).
    + now apply ratchet_long.
    + now apply held_position with (side := PosLong).
  - rewrite !recorded_tsl by congruence.
    apply never_above with (y := Enhanced.ratchet p (fst (Enhanced.step p st0 b1)) b2).
    + now apply ratchet_short.
    + now apply held_position with (side := PosShort).
Qed.

(** A long entry at 101 with the stop at 98.5, then a quiet bar closing at
    102: the trailing stop moves up to 99.5. *)
Lemma trailing_stop_monotone_witness :
  TSL (snd (Enhanced.step Enhanced.default_params Enhanced.initial_state Sample.up_bar))
  = 98.5%float
  /\ TSL (snd (Enhanced.step Enhanced.default_params
                 (fst (Enhanced.step Enhanced.default_params Enhanced.initial_state
                         Sample.up_bar))
                 Sample.drift_bar))
     = 99.5%float
  /\ Py.le 98.5 99.5 = true.
Proof.
  split; [reflexivity|]. split; [reflexivity|].
  exact (proj2 (proj1 (trailing_stop_monotone Enhanced.default_params
                         Enhanced.initial_state Sample.up_bar Sample.drift_bar)
                  eq_refl eq_refl) eq_refl).
Defined.

(** * Fresh entries *)

Lemma flat_never_exits (st : Enhanced.State) (b : Enhanced.Bar) :
  Enhanced.position st = None -> Enhanced.exit_triggered st b = false.
Proof.
  intros H. unfold Enhanced.exit_triggered, Enhanced.exit_arm. now rewrite H.
Qed.

Lemma effective_atr_nonzero_input (b : Enhanced.Bar) :
  Py.eq (Enhanced.atr (Enhanced.ind b)) 0 = false ->
  Enhanced.effective_atr b = Enhanced.atr (Enhanced.ind b).
Proof. intros H. unfold Enhanced.effective_atr. now rewrite H. Qed.

(** A row stamped [LONG] or [SHORT] is a fresh entry: the state after it
    is the one the entry assignments build, and the row records its
    levels. *)
Lemma entry_row (p : Enhanced.Params) (st : Enhanced.State) (b : Enhanced.Bar) :
  (trade_type (snd (Enhanced.step p st b)) = LONG ->
   Enhanced.step p st b
   = (Enhanced.open_long p b, Enhanced.levels_of LONG (Enhanced.open_long p b)))
  /\ (trade_type (snd (Enhanced.step p st b)) = SHORT ->
      Enhanced.step p st b
      = (Enhanced.open_short p b, Enhanced.levels_of SHORT (Enhanced.open_short p b))).
Proof.
  unfold Enhanced.step.
  destruct (Enhanced.essential_isnull (Enhanced.ind b)); [split; discriminate|].
  destruct (Enhanced.exit_triggered st b); [split; discriminate|].
  unfold Enhanced.execute_trades. simpl.
  destruct (Enhanced.position st) as [[|]|].
  - destruct (Enhanced.allow_reversals p); [|split; discriminate].
    destruct (Enhanced.short_signal p b); split; discriminate.
  - destruct (Enhanced.allow_reversals p); [|split; discriminate].
    destruct (Enhanced.long_signal p b); split; discriminate.
  - destruct (Enhanced.long_signal p b); [split; [reflexivity | discriminate]|].
    destruct (Enhanced.short_signal p b); split; try discriminate; reflexivity.
Qed.

(** C4. In the flat state, on a bar that passes the safety check, a long
    signal opens a long position and (failing that) a short signal a short
    one.  The entry price is the bar's close; the stop-loss is the entry
    minus (long) or plus (short) ATR times the stop multiplier; the
    take-profit is the entry plus (long) or minus (short) ATR times the
    target multiplier, which is the stop multiplier times the reward
    multiple; the trailing stop starts at the stop-loss; and the row records
    these levels.  ATR is the bar's ATR, with 0.0001 in place of a zero.
    The earlier variant computes the same levels with its multipliers 1.5
    and 2 from the bar's ATR as it is. *)
Theorem fresh_entry_levels (p : Enhanced.Params) (st : Enhanced.State)
  (b : Enhanced.Bar) :
  let entry := Enhanced.close b in
  let atr := Enhanced.effective_atr b in
  let long_stop := (entry - atr * Enhanced.atr_mult_sl p)%float in
  let short_stop := (entry + atr * Enhanced.atr_mult_sl p)%float in
  (Enhanced.position st = None ->
   Enhanced.essential_isnull (Enhanced.ind b) = false ->
   (Enhanced.long_signal p b = true ->
    Enhanced.step p st b
    = ({| Enhanced.position := Some PosLong; Enhanced.entry_price := entry;
          Enhanced.sl := long_stop;
          Enhanced.tp := (entry + atr * Enhanced.atr_mult_tp p)%float;
          Enhanced.tsl := long_stop |},
       {| trade_type := LONG;
          TP := (entry + atr * Enhanced.atr_mult_tp p)%float;
          SL := long_stop; TSL := long_stop |}))
   /\ (Enhanced.long_signal p b = false -> Enhanced.short_signal p b = true ->
       Enhanced.step p st b
       = ({| Enhanced.position := Some PosShort; Enhanced.entry_price := entry;
             Enhanced.sl := short_stop;
             Enhanced.tp := (entry - atr * Enhanced.atr_mult_tp p)%float;
             Enhanced.tsl := short_stop |},
          {| trade_type := SHORT;
             TP := (entry - atr * Enhanced.atr_mult_tp p)%float;
             SL := short_stop; TSL := short_stop |})))
  /\ Enhanced.atr_mult_tp Enhanced.default_params
     = (Enhanced.atr_mult_sl Enhanced.default_params * Spec.reward_multiple)%float
  /\ (Py.eq (Enhanced.atr (Enhanced.ind b)) 0 = false ->
      atr = Enhanced.atr (Enhanced.ind b))
  /\ (forall e : Earlier.Bar,
        (Earlier.long_signal e = true ->
         Earlier.step None e
         = (Some (PosLong, (Earlier.price e - Earlier.atr e * Earlier.atr_mult)%float),
            {| trade_type := LONG;
               TP := (Earlier.price e
                      + Earlier.atr e * Earlier.atr_mult * Earlier.reward_ratio)%float;
               SL := (Earlier.price e - Earlier.atr e * Earlier.atr_mult)%float;
               TSL := (Earlier.price e - Earlier.atr e * Earlier.atr_mult)%float |}))
        /\ (Earlier.long_signal e = false -> Earlier.short_signal e = true ->
            Earlier.step None e
            = (Some (PosShort, (Earlier.price e + Earlier.atr e * Earlier.atr_mult)%float),
               {| trade_type := SHORT;
                  TP := (Earlier.price e
                         - Earlier.atr e * Earlier.atr_mult * Earlier.reward_ratio)%float;
                  SL := (Earlier.price e + Earlier.atr e * Earlier.atr_mult)%float;
                  TSL := (Earlier.price e + Earlier.atr e * Earlier.atr_mult)%float |}))).
Proof.
  intros entry atr long_stop short_stop.
  split; [|split; [reflexivity|split; [apply effective_atr_nonzero_input|]]].
  - intros Hflat Hn. unfold Enhanced.step.
    rewrite Hn, (flat_never_exits st b Hflat).
    unfold Enhanced.execute_trades. simpl. rewrite Hflat.
    split.
    + intros Hl. now rewrite Hl.
    + intros Hl Hs. now rewrite Hl, Hs.
  - intros e. unfold Earlier.step. simpl. split.
    + intros Hl. now rewrite Hl.
    + intros Hl Hs. now rewrite Hl, Hs.
Qed.

(** From flat, the bar [up_bar] (close 101, ATR 1) opens a long position
    with the stop at 98.5 and the target at 104. *)
Lemma fresh_entry_levels_witness :
  Enhanced.step Enhanced.default_params Enhanced.initial_state Sample.up_bar
  = ({| Enhanced.position := Some PosLong; Enhanced.entry_price := 101;
        Enhanced.sl := 98.5; Enhanced.tp := 104; Enhanced.tsl := 98.5 |},
     mkDecision LONG 104 98.5 98.5).
Proof.
  exact (proj1 (proj1 (fresh_entry_levels Enhanced.default_params
                         Enhanced.initial_state Sample.up_bar)
                  eq_refl eq_refl) eq_refl).
Defined.

(** * [run]: the column check and the early returns *)

Lemma first_missing_sound (req cols : list string) (col : string) :
  first_missing req cols = Some col ->
  In col req /\ Py.contains col cols = false.
Proof.
  induction req as [|c req IH]; simpl; [discriminate|].
  destruct (Py.contains c cols) eqn:E.
  - intros H. destruct (IH H). auto.
  - intros [= <-]. auto.
Qed.

Lemma first_missing_complete (req cols : list string) (c : string) :
  In c req -> Py.contains c cols = false ->
  exists col, first_missing req cols = Some col.
Proof.
  induction req as [|c' req IH]; simpl; [contradiction|].
  intros [-> | Hin] Hc.
  - rewrite Hc. eauto.
  - destruct (Py.contains c' cols); eauto.
Qed.

Lemma stamp_hold_decisions (df : DataFrame.t) :
  Forall (eq hold_nan) (decisions (stamp_hold df))
  /\ List.length (decisions (stamp_hold df)) = DataFrame.len (frame (stamp_hold df)).
Proof.
  unfold stamp_hold, DataFrame.len. simpl. split.
  - induction (DataFrame.rows df); simpl; constructor; auto.
  - apply length_map.
Qed.

Lemma stamp_hold_repeat (df : DataFrame.t) :
  decisions (stamp_hold df) = repeat hold_nan (DataFrame.len df).
Proof.
  unfold stamp_hold, DataFrame.len. simpl.
  induction (DataFrame.rows df); simpl; congruence.
Qed.

(** C5, as stated, fails: a table without the [Volume] column and without
    rows is returned with the four columns added, and no error is raised,
    whatever the indicator stage would do. *)
Lemma empty_table_skips_column_check :
  first_missing required_cols
    (DataFrame.columns (Enhanced.normalize Sample.empty_without_volume))
  = Some "volume"%string
  /\ Enhanced.run Sample.failing_indicators Enhanced.default_params
       Sample.empty_without_volume
     = inr (stamp_hold Sample.empty_without_volume)
  /\ Enhanced.run Sample.steady_indicators Enhanced.default_params
       Sample.empty_without_volume
     = inr (stamp_hold Sample.empty_without_volume).
Proof. repeat split. Qed.

(** C5, amended. For every table that is not empty and lacks one of the
    five required columns after the labels are normalized, [run] raises the
    missing-column error for the first absent one; the indicator stage has
    no part in the result and no table is returned. *)
Theorem missing_column_raises
  (indicators : DataFrame.t -> exn + (nat -> Enhanced.Ind))
  (p : Enhanced.Params) (data : DataFrame.t) (c : string) :
  DataFrame.empty data = false ->
  In c required_cols ->
  Py.contains c (DataFrame.columns (Enhanced.normalize data)) = false ->
  exists col,
    In col required_cols
    /\ Py.contains col (DataFrame.columns (Enhanced.normalize data)) = false
    /\ Enhanced.run indicators p data = inl (missing_column col).
Proof.
  intros Hne Hin Hc.
  destruct (first_missing_complete _ _ _ Hin Hc) as [col Hcol].
  exists col. destruct (first_missing_sound _ _ _ Hcol) as [H1 H2].
  repeat split; try assumption.
  unfold Enhanced.run. now rewrite Hne, Hcol.
Qed.

Lemma missing_column_raises_witness :
  exists col,
    In col required_cols
    /\ Py.contains col
         (DataFrame.columns (Enhanced.normalize Sample.one_bar_without_volume))
       = false
    /\ Enhanced.run Sample.steady_indicators Enhanced.default_params
         Sample.one_bar_without_volume
       = inl (missing_column col).
Proof.
  apply (missing_column_raises Sample.steady_indicators Enhanced.default_params
           Sample.one_bar_without_volume "volume"%string).
  - reflexivity.
  - simpl. tauto.
  - reflexivity.
Defined.

(** The earlier variant has no early return: it raises the error for
    every table that lacks a required column, empty or not. *)
Lemma earlier_variant_checks_every_table (data : DataFrame.t) (c : string) :
  In c required_cols ->
  Py.contains c (map Py.lower (DataFrame.columns data)) = false ->
  exists col, In col required_cols
              /\ Earlier.check_columns data = Some (missing_column col).
Proof.
  intros Hin Hc.
  destruct (first_missing_complete _ _ _ Hin Hc) as [col Hcol].
  exists col. split; [apply (first_missing_sound _ _ _ Hcol)|].
  unfold Earlier.check_columns. now rewrite Hcol.
Qed.

(** C6. When the required columns are present and fewer than 200 rows are
    left after the rows with a missing required cell are dropped, [run]
    raises nothing and returns the cleaned table itself (the input itself
    when it has no row), all its rows kept, with one decision for each row
    and every decision [HOLD] with NaN levels; the result is the same
    whatever the indicator stage is, so it is not consulted. *)
Theorem short_series_all_hold
  (indicators : DataFrame.t -> exn + (nat -> Enhanced.Ind))
  (p : Enhanced.Params) (data : DataFrame.t) :
  first_missing required_cols (DataFrame.columns (Enhanced.normalize data)) = None ->
  (DataFrame.len (Enhanced.clean data) <? 200)%nat = true ->
  exists out,
    Enhanced.run indicators p data = inr out
    /\ frame out = (if DataFrame.empty data then data else Enhanced.clean data)
    /\ decisions out = repeat hold_nan (DataFrame.len (frame out))
    /\ forall other, Enhanced.run other p data = inr out.
Proof.
  intros Hcols Hlen.
  exists (stamp_hold (if DataFrame.empty data then data else Enhanced.clean data)).
  assert (Hrun : forall ind,
             Enhanced.run ind p data
             = inr (stamp_hold (if DataFrame.empty data then data
                                else Enhanced.clean data))).
  { intros ind. unfold Enhanced.run. destruct (DataFrame.empty data); [reflexivity|].
    rewrite Hcols. unfold Enhanced.clean in Hlen. now rewrite Hlen. }
  split; [apply Hrun|]. split; [reflexivity|]. split; [apply stamp_hold_repeat|].
  exact Hrun.
Qed.

(** A series of exactly 199 complete bars: the table returned has its 199
    rows and 199 decisions, each of them [HOLD] with NaN levels. *)
Lemma short_series_all_hold_witness :
  exists out,
    Enhanced.run Sample.steady_indicators Enhanced.default_params
      (Sample.flat_market 199) = inr out
    /\ frame out = Enhanced.clean (Sample.flat_market 199)
    /\ DataFrame.len (frame out) = 199%nat
    /\ decisions out = repeat hold_nan 199.
Proof.
  destruct (short_series_all_hold Sample.steady_indicators Enhanced.default_params
              (Sample.flat_market 199) eq_refl eq_refl) as (out & Hrun & Hf & Hd & _).
  exists out. split; [exact Hrun|]. split; [exact Hf|].
  rewrite Hf in Hd |- *. split; [reflexivity | exact Hd].
Defined.

(** C10. For an empty table [run] returns the table itself with [HOLD] and
    NaN levels on each of its rows, and raises nothing; the column check is
    not reached, whatever columns the table has. *)
Theorem empty_table_all_hold
  (indicators : DataFrame.t -> exn + (nat -> Enhanced.Ind))
  (p : Enhanced.Params) (data : DataFrame.t) :
  DataFrame.empty data = true ->
  Enhanced.run indicators p data = inr (stamp_hold data)
  /\ frame (stamp_hold data) = data
  /\ Forall (eq hold_nan) (decisions (stamp_hold data))
  /\ List.length (decisions (stamp_hold data)) = DataFrame.len data.
Proof.
  intros He. unfold Enhanced.run. rewrite He.
  repeat split; apply stamp_hold_decisions.
Qed.

(** An empty table without the [Volume] column: no missing-column error. *)
Lemma empty_table_all_hold_witness :
  first_missing required_cols
    (DataFrame.columns (Enhanced.normalize Sample.empty_without_volume))
  = Some "volume"%string
  /\ Enhanced.run Sample.steady_indicators Enhanced.default_params
       Sample.empty_without_volume
     = inr (stamp_hold Sample.empty_without_volume).
Proof.
  split; [reflexivity|].
  exact (proj1 (empty_table_all_hold Sample.steady_indicators
                  Enhanced.default_params Sample.empty_without_volume eq_refl)).
Defined.

(** * [run]: failures of the indicator stage, and what can be raised *)






Lemma strategy_loop_length (p : Enhanced.Params) (start : Z)
  (bars : list Enhanced.Bar) :
  forall st, List.length (Enhanced.strategy_loop p start st bars) = List.length bars.
Proof.
  induction bars as [|b bars IH]; intros st; simpl; [reflexivity|].
  destruct (start <=? Enhanced.index b)%Z.
  - destruct (Enhanced.step p st b) as [st' d]. simpl. now rewrite IH.
  - simpl. now rewrite IH.
Qed.

Lemma bars_from_length (df : DataFrame.t) (f : nat -> Enhanced.Ind)
  (rs : list DataFrame.Row) :
  forall k, List.length (Enhanced.bars_from df f k rs) = List.length rs.
Proof.
  induction rs as [|r rs IH]; intros k; simpl; [reflexivity|]. now rewrite IH.
Qed.

Lemma strategy_logic_shape (p : Enhanced.Params) (df : DataFrame.t)
  (f : nat -> Enhanced.Ind) (out : Output) :
  Enhanced.strategy_logic p df f = inr out ->
  frame out = df /\ List.length (decisions out) = DataFrame.len df.
Proof.
  unfold Enhanced.strategy_logic.
  destruct (Enhanced.first_valid_index _) as [start|].
  - destruct (Enhanced.has_duplicate _); [discriminate|].
    intros [= <-]. simpl. split; [reflexivity|].
    rewrite strategy_loop_length. apply bars_from_length.
  - intros [= <-]. split; [reflexivity | apply stamp_hold_decisions].
Qed.





(** * Level recording *)

Lemma essential_atr (i : Enhanced.Ind) :
  Enhanced.essential_isnull i = false -> Py.isna (Enhanced.atr i) = false.
Proof.
  unfold Enhanced.essential_isnull. intros H.
  now apply orb_false_elim in H.
Qed.

Lemma effective_atr_not_nan (b : Enhanced.Bar) :
  Enhanced.essential_isnull (Enhanced.ind b) = false ->
  is_nan (Enhanced.effective_atr b) = false.
Proof.
  intros H. apply essential_atr in H. unfold Enhanced.effective_atr.
  destruct (Py.eq _ 0); [reflexivity | exact H].
Qed.

Section Defined_levels.

Variable p : Enhanced.Params.
Hypothesis Hp : Spec.usable_multipliers p = true.

Variable b : Enhanced.Bar.
Hypothesis Hclose : Spec.finite_close b = true.
Hypothesis Hnull : Enhanced.essential_isnull (Enhanced.ind b) = false.

Lemma stop_distance_not_nan :
  is_nan (Enhanced.effective_atr b * Enhanced.atr_mult_sl p) = false.
Proof.
  unfold Spec.usable_multipliers, Py.eq in Hp.
  apply andb_prop in Hp. destruct Hp as [H _].
  apply andb_prop in H. destruct H as [H _].
  apply andb_prop in H. destruct H as [H1 H2].
  apply FloatFacts.mul_not_nan.
  - now apply effective_atr_not_nan.
  - exact H1.
  - now destruct (Enhanced.atr_mult_sl p =? 0)%float.
Qed.

Lemma target_distance_not_nan :
  is_nan (Enhanced.effective_atr b * Enhanced.atr_mult_tp p) = false.
Proof.
  unfold Spec.usable_multipliers, Py.eq in Hp.
  apply andb_prop in Hp. destruct Hp as [H H2].
  apply andb_prop in H. destruct H as [_ H1].
  apply FloatFacts.mul_not_nan.
  - now apply effective_atr_not_nan.
  - exact H1.
  - now destruct (Enhanced.atr_mult_tp p =? 0)%float.
Qed.

Lemma open_long_defined :
  Spec.levels_match_side (Enhanced.open_long p b) = true.
Proof.
  unfold Spec.levels_match_side, Py.isna. simpl.
  rewrite (FloatFacts.sub_not_nan _ _ Hclose stop_distance_not_nan).
  now rewrite (FloatFacts.add_not_nan _ _ Hclose target_distance_not_nan).
Qed.

Lemma open_short_defined :
  Spec.levels_match_side (Enhanced.open_short p b) = true.
Proof.
  unfold Spec.levels_match_side, Py.isna. simpl.
  rewrite (FloatFacts.add_not_nan _ _ Hclose stop_distance_not_nan).
  now rewrite (FloatFacts.sub_not_nan _ _ Hclose target_distance_not_nan).
Qed.

Lemma ratchet_defined (st : Enhanced.State) (side : Side) :
  Enhanced.position st = Some side ->
  Py.isna (Enhanced.tsl st) = false ->
  Py.isna (Enhanced.ratchet p st b) = false.
Proof.
  intros Hpos Htsl. unfold Enhanced.ratchet. rewrite Hpos, Htsl. simpl.
  destruct side;
    match goal with |- context [if ?c then _ else _] => destruct c end;
    try exact Htsl.
  - apply (FloatFacts.sub_not_nan _ _ Hclose stop_distance_not_nan).
  - apply (FloatFacts.add_not_nan _ _ Hclose stop_distance_not_nan).
Qed.

Lemma ratcheted_state_defined (st : Enhanced.State) :
  Spec.levels_match_side st = true ->
  Spec.levels_match_side
    {| Enhanced.position := Enhanced.position st;
       Enhanced.entry_price := Enhanced.entry_price st;
       Enhanced.sl := Enhanced.sl st;
       Enhanced.tp := Enhanced.tp st;
       Enhanced.tsl := Enhanced.ratchet p st b |} = true.
Proof.
  unfold Spec.levels_match_side. simpl.
  destruct (Enhanced.position st) as [side|] eqn:Hpos.
  - intros H. apply andb_prop in H. destruct H as [H H3].
    rewrite H. simpl.
    rewrite (ratchet_defined st side Hpos); [reflexivity|].
    now destruct (Py.isna (Enhanced.tsl st)).
  - unfold Enhanced.ratchet. now rewrite Hpos.
Qed.

Lemma step_keeps_levels_matched (st : Enhanced.State) :
  Spec.levels_match_side st = true ->
  Spec.levels_match_side (fst (Enhanced.step p st b)) = true.
Proof.
  intros Hst. unfold Enhanced.step. rewrite Hnull.
  destruct (Enhanced.exit_triggered st b); [reflexivity|].
  pose proof (ratcheted_state_defined st Hst) as H1.
  unfold Enhanced.execute_trades. simpl.
  destruct (Enhanced.position st) as [[|]|].
  - destruct (Enhanced.allow_reversals p); [|exact H1].
    destruct (Enhanced.short_signal p b); [apply open_short_defined | exact H1].
  - destruct (Enhanced.allow_reversals p); [|exact H1].
    destruct (Enhanced.long_signal p b); [apply open_long_defined | exact H1].
  - destruct (Enhanced.long_signal p b); [apply open_long_defined|].
    destruct (Enhanced.short_signal p b); [apply open_short_defined | exact H1].
Qed.

End Defined_levels.

Lemma step_matched (p : Enhanced.Params) (st : Enhanced.State) (b : Enhanced.Bar) :
  Spec.usable_multipliers p = true ->
  Spec.finite_close b = true ->
  Spec.levels_match_side st = true ->
  Spec.levels_match_side (fst (Enhanced.step p st b)) = true.
Proof.
  intros Hp Hc Hst.
  destruct (Enhanced.essential_isnull (Enhanced.ind b)) eqn:Hn.
  - unfold Enhanced.step. now rewrite Hn.
  - now apply step_keeps_levels_matched.
Qed.

Lemma state_after_matched (p : Enhanced.Params) (start : Z)
  (bars : list Enhanced.Bar) :
  Spec.usable_multipliers p = true ->
  forallb Spec.finite_close bars = true ->
  forall st, Spec.levels_match_side st = true ->
             Spec.levels_match_side (Enhanced.state_after p start st bars) = true.
Proof.
  intros Hp. induction bars as [|b bars IH]; simpl; intros Hall st Hst; [exact Hst|].
  apply andb_prop in Hall. destruct Hall as [Hb Hall].
  destruct (start <=? Enhanced.index b)%Z; [|now apply IH].
  apply IH; [exact Hall|]. now apply step_matched.
Qed.

(** The row the loop writes for a bar is the one [step] gives from the
    state the earlier bars have left. *)
Lemma strategy_loop_last (p : Enhanced.Params) (start : Z)
  (bars : list Enhanced.Bar) (b : Enhanced.Bar) :
  forall st,
    Enhanced.strategy_loop p start st (bars ++ [b])
    = Enhanced.strategy_loop p start st bars
      ++ [if (start <=? Enhanced.index b)%Z
          then snd (Enhanced.step p (Enhanced.state_after p start st bars) b)
          else hold_nan].
Proof.
  induction bars as [|a bars IH]; intros st; simpl.
  - destruct (start <=? Enhanced.index b)%Z; [|reflexivity].
    now destruct (Enhanced.step p st b).
  - destruct (start <=? Enhanced.index a)%Z.
    + destruct (Enhanced.step p st a) as [st' d] eqn:E. simpl.
      now rewrite IH.
    + now rewrite IH.
Qed.

Lemma matched_flat (st : Enhanced.State) :
  Spec.levels_match_side st = true -> Enhanced.position st = None ->
  Py.isna (Enhanced.sl st) = true /\ Py.isna (Enhanced.tp st) = true
  /\ Py.isna (Enhanced.tsl st) = true.
Proof.
  unfold Spec.levels_match_side. intros H Hpos. rewrite Hpos in H.
  apply andb_prop in H. destruct H as [H H3].
  apply andb_prop in H. destruct H as [H1 H2]. auto.
Qed.

Lemma matched_open (st : Enhanced.State) :
  Spec.levels_match_side st = true -> Enhanced.position st <> None ->
  Py.isna (Enhanced.sl st) = false /\ Py.isna (Enhanced.tp st) = false
  /\ Py.isna (Enhanced.tsl st) = false.
Proof.
  unfold Spec.levels_match_side. intros H Hpos.
  destruct (Enhanced.position st); [|congruence].
  apply andb_prop in H. destruct H as [H H3].
  apply andb_prop in H. destruct H as [H1 H2].
  now destruct (Py.isna (Enhanced.sl st)), (Py.isna (Enhanced.tp st)),
    (Py.isna (Enhanced.tsl st)).
Qed.

(** What [step] stores in the row: the levels of the state it leaves,
    except on a [CLOSE] row, which stores the levels held before. *)
Lemma step_records (p : Enhanced.Params) (st : Enhanced.State) (b : Enhanced.Bar) :
  let st' := fst (Enhanced.step p st b) in
  let d := snd (Enhanced.step p st b) in
  (trade_type d = CLOSE ->
   Enhanced.position st <> None /\ st' = Enhanced.initial_state
   /\ d = Enhanced.levels_of CLOSE st)
  /\ (trade_type d <> CLOSE -> d = Enhanced.levels_of (trade_type d) st').
Proof.
  unfold Enhanced.step.
  destruct (Enhanced.essential_isnull (Enhanced.ind b)); simpl;
    [split; [discriminate | reflexivity]|].
  destruct (Enhanced.exit_triggered st b) eqn:He; simpl.
  - split; [|congruence]. intros _. repeat split.
    intros Hflat. now rewrite (flat_never_exits st b Hflat) in He.
  - destruct (Enhanced.execute_trades _ _ _) as [st2 t] eqn:E. simpl.
    split; [|reflexivity].
    intros ->. exfalso. revert E. unfold Enhanced.execute_trades. simpl.
    destruct (Enhanced.position st) as [[|]|];
      repeat match goal with |- context [if ?c then _ else _] => destruct c end;
      congruence.
Qed.

(** C8. Let the loop have gone through [bars], all with a finite close,
    and let it process one more such bar.  If the row is not a [CLOSE], the
    levels it records are those of the position state after the bar, and
    they are all NaN when that state is flat and all defined when it is
    not.  If the row is a [CLOSE], the state after it is flat, and the row
    records the levels held before the exit, which are defined. *)
Theorem level_recording (p : Enhanced.Params) (start : Z)
  (bars : list Enhanced.Bar) (b : Enhanced.Bar) :
  Spec.usable_multipliers p = true ->
  forallb Spec.finite_close bars = true ->
  Spec.finite_close b = true ->
  let st := Enhanced.state_after p start Enhanced.initial_state bars in
  let st' := fst (Enhanced.step p st b) in
  let d := snd (Enhanced.step p st b) in
  (trade_type d <> CLOSE ->
   (TP d, SL d, TSL d) = (Enhanced.tp st', Enhanced.sl st', Enhanced.tsl st')
   /\ (Enhanced.position st' = None ->
       Py.isna (SL d) = true /\ Py.isna (TP d) = true /\ Py.isna (TSL d) = true)
   /\ (Enhanced.position st' <> None ->
       Py.isna (SL d) = false /\ Py.isna (TP d) = false /\ Py.isna (TSL d) = false))
  /\ (trade_type d = CLOSE ->
      Enhanced.position st' = None
      /\ (TP d, SL d, TSL d) = (Enhanced.tp st, Enhanced.sl st, Enhanced.tsl st)
      /\ Py.isna (SL d) = false /\ Py.isna (TP d) = false /\ Py.isna (TSL d) = false).
Proof.
  intros Hp Hbars Hb st st' d.
  assert (Hst : Spec.levels_match_side st = true)
    by (now apply state_after_matched).
  assert (Hst' : Spec.levels_match_side st' = true)
    by (now apply step_matched).
  destruct (step_records p st b) as [Hclose Hother]. fold st' d in Hclose, Hother.
  split.
  - intros Hd. specialize (Hother Hd). rewrite Hother. simpl.
    split; [reflexivity|]. split.
    + now apply matched_flat.
    + now apply matched_open.
  - intros Hd. destruct (Hclose Hd) as (Hopen & Hreset & Hrow).
    rewrite Hrow, Hreset. simpl. split; [reflexivity|]. split; [reflexivity|].
    now apply matched_open.
Qed.

(** After the long entry on [up_bar], the quiet [drift_bar] is a [HOLD]
    row that records the levels of the open position: target 104, stop
    98.5, trailing stop 99.5. *)
Lemma level_recording_witness :
  snd (Enhanced.step Enhanced.default_params
         (Enhanced.state_after Enhanced.default_params 0 Enhanced.initial_state
            [Sample.up_bar])
         Sample.drift_bar)
  = mkDecision HOLD 104 98.5 99.5
  /\ Py.isna 98.5 = false /\ Py.isna 104 = false /\ Py.isna 99.5 = false.
Proof.
  split; [reflexivity|].
  refine (proj2 (proj2 (proj1 (level_recording Enhanced.default_params 0
                                 [Sample.up_bar] Sample.drift_bar
                                 eq_refl eq_refl eq_refl) _)) _);
    vm_compute; discriminate.
Defined.

(** * An ATR of zero *)

Lemma eqb_not_nan (x y : float) : (x =? y)%float = true -> is_nan x = false.
Proof.
  rewrite FloatAxioms.eqb_spec. intros H. apply FloatFacts.not_nan_spec.
  intros E. now rewrite E in H.
Qed.


(** The earlier variant has no substitute for a zero ATR: its long entry on
    such a bar has the stop-loss, the take-profit and the trailing stop on
    the entry price. *)
Lemma earlier_variant_zero_width :
  Earlier.step None Sample.earlier_still_bar
  = (Some (PosLong, 101%float), mkDecision LONG 101 101 101).
Proof. reflexivity. Qed.

Lemma ratchet_result (p : Enhanced.Params) (st : Enhanced.State) (b : Enhanced.Bar) :
  Enhanced.ratchet p st b = Enhanced.tsl st
  \/ Enhanced.ratchet p st b
     = (Enhanced.close b - Enhanced.effective_atr b * Enhanced.atr_mult_sl p)%float
  \/ Enhanced.ratchet p st b
     = (Enhanced.close b + Enhanced.effective_atr b * Enhanced.atr_mult_sl p)%float.
Proof.
  unfold Enhanced.ratchet.
  destruct (Enhanced.position st) as [[|]|]; [| |now left];
    match goal with |- context [if ?c then _ else _] => destruct c end; auto.
Qed.

Lemma stop_distance_moves (x : float) :
  Py.lt (abs x) Spec.price_bound = true ->
  Py.eq (x - 0.0001 * 2.5) x = false /\ Py.eq (x + 0.0001 * 2.5) x = false.
Proof.
  intros H.
  apply (FloatFacts.small_value_moves x (0.0001 * 2.5) false 4611686018427388 H);
    [reflexivity | reflexivity].
Qed.

Lemma target_distance_moves (x : float) :
  Py.lt (abs x) Spec.price_bound = true ->
  Py.eq (x - 0.0001 * 3.0) x = false /\ Py.eq (x + 0.0001 * 3.0) x = false.
Proof.
  intros H.
  apply (FloatFacts.small_value_moves x (0.0001 * 3.0) false 5534023222112866 H);
    [reflexivity | reflexivity].
Qed.

(** Where the substitution does reach its aim.  On a bar whose ATR is
    exactly zero, 0.0001 is used in its place for every stop and target distance: the loop body behaves as
    on the same bar with an ATR of 0.0001.  With the multipliers 2.5 and
    3.0, and a close below two to the power 41 in magnitude, the stop-loss,
    the take-profit and the trailing stop of an entry on such a bar all
    differ from the entry price, and a trailing stop that such a bar has
    moved differs from the bar's close. *)
Theorem zero_atr_substituted (p : Enhanced.Params) (st : Enhanced.State)
  (b : Enhanced.Bar) :
  Py.eq (Enhanced.atr (Enhanced.ind b)) 0 = true ->
  (Enhanced.effective_atr b = 0.0001%float
   /\ Enhanced.step p st b = Enhanced.step p st (Spec.set_atr b 0.0001))
  /\ (Enhanced.atr_mult_sl p = 2.5%float -> Enhanced.atr_mult_tp p = 3.0%float ->
      Py.lt (abs (Enhanced.close b)) Spec.price_bound = true ->
      let st' := fst (Enhanced.step p st b) in
      let d := snd (Enhanced.step p st b) in
      (trade_type d = LONG \/ trade_type d = SHORT ->
       Enhanced.entry_price st' = Enhanced.close b
       /\ Py.eq (SL d) (Enhanced.entry_price st') = false
       /\ Py.eq (TP d) (Enhanced.entry_price st') = false
       /\ Py.eq (TSL d) (Enhanced.entry_price st') = false)
      /\ (forall side,
            Enhanced.position st = Some side ->
            Enhanced.position st' = Some side ->
            Enhanced.tsl st' = Enhanced.tsl st
            \/ Py.eq (Enhanced.tsl st') (Enhanced.close b) = false)).
Proof.
  intros Hz.
  assert (He : Enhanced.effective_atr b = 0.0001%float)
    by (unfold Enhanced.effective_atr; now rewrite Hz).
  split.
  - split; [exact He|].
    assert (He' : Enhanced.effective_atr (Spec.set_atr b 0.0001) = 0.0001%float)
      by reflexivity.
    assert (Hn : Enhanced.essential_isnull (Enhanced.ind (Spec.set_atr b 0.0001))
                 = Enhanced.essential_isnull (Enhanced.ind b)).
    { unfold Enhanced.essential_isnull, Py.isna. simpl.
      rewrite (eqb_not_nan _ _ Hz). reflexivity. }
    unfold Enhanced.step. rewrite Hn.
    destruct (Enhanced.essential_isnull (Enhanced.ind b)); [reflexivity|].
    change (Enhanced.exit_triggered st (Spec.set_atr b 0.0001))
      with (Enhanced.exit_triggered st b).
    destruct (Enhanced.exit_triggered st b); [reflexivity|].
    unfold Enhanced.execute_trades, Enhanced.ratchet, Enhanced.open_long,
      Enhanced.open_short.
    rewrite He, He'. reflexivity.
  - intros Hsl Htp Hclose st' d.
    destruct (stop_distance_moves _ Hclose) as [Hsub Hadd].
    destruct (target_distance_moves _ Hclose) as [Hsub' Hadd'].
    split.
    + destruct (entry_row p st b) as [Hlong Hshort].
      intros [Hd | Hd]; subst st' d;
        [rewrite (Hlong Hd) | rewrite (Hshort Hd)];
        unfold Enhanced.open_long, Enhanced.open_short; simpl;
        rewrite He, Hsl, Htp; auto.
    + intros side Hpos Hpos'. subst st'.
      destruct (held_position p st b side Hpos Hpos') as [H | H]; [now left|].
      rewrite H.
      destruct (ratchet_result p st b) as [R | [R | R]]; rewrite R;
        [now left | right | right]; rewrite He, Hsl; assumption.
Qed.

Lemma zero_atr_substituted_witness :
  Enhanced.step Enhanced.default_params Enhanced.initial_state
    (Sample.bar 1 101 101.5 100.5 (Sample.with_atr Sample.trending_up 0))
  = ({| Enhanced.position := Some PosLong; Enhanced.entry_price := 101;
        Enhanced.sl := 100.99975; Enhanced.tp := 101.0003;
        Enhanced.tsl := 100.99975 |},
     mkDecision LONG 101.0003 100.99975 100.99975)
  /\ Py.eq 100.99975 101 = false /\ Py.eq 101.0003 101 = false.
Proof.
  pose proof (zero_atr_substituted Enhanced.default_params Enhanced.initial_state
                (Sample.bar 1 101 101.5 100.5 (Sample.with_atr Sample.trending_up 0))
                eq_refl) as [[_ H1] H2].
  split; [exact H1|].
  destruct (H2 eq_refl eq_refl eq_refl) as [H3 _].
  destruct (H3 (or_introl eq_refl)) as (_ & H4 & H5 & _).
  split; [exact H4 | exact H5].
Defined.

(** * The trailing stop of the earlier variant *)

(** In the earlier variant too a long position that stays open never has
    its trailing stop lowered by a bar, nor a short one its trailing stop
    raised. *)
Lemma earlier_trailing_stop_monotone (tsl tsl' : float) (b : Earlier.Bar) :
  (fst (Earlier.step (Some (PosLong, tsl)) b) = Some (PosLong, tsl') ->
   Py.lt tsl' tsl = false)
  /\ (fst (Earlier.step (Some (PosShort, tsl)) b) = Some (PosShort, tsl') ->
      Py.gt tsl' tsl = false).
Proof.
  unfold Earlier.step, Earlier.keep, Earlier.enter_long, Earlier.enter_short,
    Earlier.py_max, Earlier.py_min, Py.lt, Py.gt.
  split.
  - destruct (Earlier.hit_tsl _ b); [discriminate|].
    destruct (Earlier.long_signal b).
    + cbn [fst]. destruct (_ <? _)%float eqn:E; intros [= <-].
      * now apply FloatFacts.ltb_asym.
      * apply FloatFacts.ltb_irrefl.
    + destruct (Earlier.short_signal b); [discriminate|].
      destruct (_ || _); cbn [fst]; [discriminate|].
      intros [= <-]. apply FloatFacts.ltb_irrefl.
  - destruct (Earlier.hit_tsl _ b); [discriminate|].
    destruct (Earlier.long_signal b); [discriminate|].
    destruct (Earlier.short_signal b).
    + cbn [fst]. destruct (_ <? _)%float eqn:E; intros [= <-].
      * now apply FloatFacts.ltb_asym.
      * apply FloatFacts.ltb_irrefl.
    + destruct (_ || _); cbn [fst]; [discriminate|].
      intros [= <-]. apply FloatFacts.ltb_irrefl.
Qed.

(** * More facts about binary64 values *)
Module FloatOrder.

Lemma leb_nan_l (x y : float) : is_nan x = true -> (x <=? y)%float = false.
Proof.
  intros H. apply FloatFacts.is_nan_spec in H.
  rewrite FloatAxioms.leb_spec, H. reflexivity.
Qed.

Lemma leb_nan_r (x y : float) : is_nan y = true -> (x <=? y)%float = false.
Proof.
  intros H. apply FloatFacts.is_nan_spec in H.
  rewrite FloatAxioms.leb_spec, H. unfold SFleb.
  now rewrite FloatFacts.SFcompare_nan_r.
Qed.

Lemma ltb_defined (x y : float) :
  (x <? y)%float = true -> is_nan x = false /\ is_nan y = false.
Proof.
  intros H. split.
  - destruct (is_nan x) eqn:E; [|reflexivity].
    now rewrite (FloatFacts.ltb_nan_l x y E) in H.
  - destruct (is_nan y) eqn:E; [|reflexivity].
    now rewrite (FloatFacts.ltb_nan_r x y E) in H.
Qed.

Lemma leb_defined (x y : float) :
  (x <=? y)%float = true -> is_nan x = false /\ is_nan y = false.
Proof.
  intros H. split.
  - destruct (is_nan x) eqn:E; [|reflexivity].
    now rewrite (leb_nan_l x y E) in H.
  - destruct (is_nan y) eqn:E; [|reflexivity].
    now rewrite (leb_nan_r x y E) in H.
Qed.

Ltac order_cases :=
  repeat match goal with
         | |- context [Z.compare ?a ?b] => destruct (Z.compare_spec a b)
         | |- context [Pos.compare_cont Eq ?a ?b] =>
             change (Pos.compare_cont Eq a b) with (Pos.compare a b);
             destruct (Pos.compare_spec a b)
         end.

Lemma SFleb_trans (a b c : spec_float) :
  SFleb a b = true -> SFleb b c = true -> SFleb a c = true.
Proof.
  unfold SFleb.
  destruct a as [sa | sa | | sa ma ea], b as [sb | sb | | sb mb eb],
    c as [sc | sc | | sc mc ec];
    cbn [SFcompare]; try discriminate; try reflexivity;
    try destruct sa; try destruct sb; try destruct sc;
    try discriminate; try reflexivity;
    order_cases; subst; cbn [CompOpp];
    try discriminate; try reflexivity; intros; exfalso; lia.
Qed.

Lemma leb_trans (x y z : float) :
  (x <=? y)%float = true -> (y <=? z)%float = true -> (x <=? z)%float = true.
Proof. rewrite !FloatAxioms.leb_spec. apply SFleb_trans. Qed.

(** *** NaN operands *)

Lemma mul_nan_l (x y : float) : is_nan x = true -> is_nan (x * y) = true.
Proof.
  intros H. apply FloatFacts.is_nan_spec in H. apply FloatFacts.is_nan_spec.
  rewrite FloatAxioms.mul_spec, H. reflexivity.
Qed.

Lemma sub_nan_r (x y : float) : is_nan y = true -> is_nan (x - y) = true.
Proof.
  intros H. apply FloatFacts.is_nan_spec in H. apply FloatFacts.is_nan_spec.
  rewrite FloatAxioms.sub_spec, H. now destruct (Prim2SF x).
Qed.

Lemma add_nan_r (x y : float) : is_nan y = true -> is_nan (x + y) = true.
Proof.
  intros H. apply FloatFacts.is_nan_spec in H. apply FloatFacts.is_nan_spec.
  rewrite FloatAxioms.add_spec, H. now destruct (Prim2SF x).
Qed.

Lemma div_nan_r (x y : float) : is_nan y = true -> is_nan (x / y) = true.
Proof.
  intros H. apply FloatFacts.is_nan_spec in H. apply FloatFacts.is_nan_spec.
  rewrite FloatAxioms.div_spec, H. now destruct (Prim2SF x).
Qed.

Lemma nan_unique (x : float) : is_nan x = true -> x = nan.
Proof.
  intros H. apply FloatFacts.is_nan_spec in H.
  apply FloatAxioms.Prim2SF_inj. now rewrite H.
Qed.

(** *** Zeros *)

Lemma eqb_zero (x : float) :
  (x =? 0)%float = true <-> exists s, Prim2SF x = S754_zero s.
Proof.
  rewrite FloatAxioms.eqb_spec.
  change (Prim2SF 0) with (S754_zero false). split.
  - intros H. apply FloatFacts.SFeqb_true in H.
    destruct H as [H | (s1 & s2 & H & _)]; eauto.
  - intros [s ->]. reflexivity.
Qed.

Lemma add_zeros (x y : float) :
  (x =? 0)%float = true -> (y =? 0)%float = true -> (x + y =? 0)%float = true.
Proof.
  rewrite !eqb_zero. intros [s Hx] [t Hy].
  rewrite FloatAxioms.add_spec, Hx, Hy. destruct s, t; cbn; eauto.
Qed.

End FloatOrder.

(** * The column check *)

Lemma contains_In (x : string) (xs : list string) :
  Py.contains x xs = true <-> In x xs.
Proof.
  unfold Py.contains. rewrite existsb_exists. split.
  - intros (y & Hy & E). apply String.eqb_eq in E. now subst.
  - intros H. exists x. split; [exact H | apply String.eqb_refl].
Qed.

(** The column check reports the first required column, in the order they
    are listed, that is absent from the labels; it passes exactly when all
    of them are present. *)
Theorem first_missing_is_first (req cols : list string) :
  match first_missing req cols with
  | None => forall c, In c req -> In c cols
  | Some c =>
      ~ In c cols
      /\ exists before rest,
           req = before ++ c :: rest /\ forall x, In x before -> In x cols
  end.
Proof.
  induction req as [|r req IH]; simpl; [contradiction|].
  destruct (Py.contains r cols) eqn:E.
  - apply contains_In in E. destruct (first_missing req cols) as [c|].
    + destruct IH as (Hc & before & rest & -> & Hb). split; [exact Hc|].
      exists (r :: before), rest. split; [reflexivity|].
      intros x [<- | Hx]; auto.
    + intros c [<- | Hc]; auto.
  - split.
    + intros H. apply contains_In in H. congruence.
    + exists [], req. split; [reflexivity | contradiction].
Qed.

(** * Normalising the column labels *)

Lemma lower_ascii_idempotent (c : ascii) :
  Py.lower_ascii (Py.lower_ascii c) = Py.lower_ascii c.
Proof. destruct c as [[] [] [] [] [] [] [] []]; reflexivity. Qed.

Lemma lower_idempotent (s : string) : Py.lower (Py.lower s) = Py.lower s.
Proof.
  induction s as [|c s IH]; simpl; [reflexivity|].
  now rewrite lower_ascii_idempotent, IH.
Qed.

Lemma lower_rename (c : string) :
  Py.lower (DataFrame.rename_one Enhanced.rename_map c) = Py.lower c.
Proof.
  unfold Enhanced.rename_map. cbn [DataFrame.rename_one].
  repeat match goal with
         | |- context [String.eqb ?k c] => destruct (String.eqb_spec k c)
         end; subst; reflexivity.
Qed.

Lemma normalize_lower (d : DataFrame.t) :
  Enhanced.normalize d = DataFrame.lower_columns d.
Proof.
  unfold Enhanced.normalize, DataFrame.lower_columns, DataFrame.rename.
  cbn [DataFrame.columns DataFrame.rows].
  rewrite map_map. f_equal. apply map_ext. apply lower_rename.
Qed.

Lemma lower_ascii_below_128 (c : ascii) :
  (nat_of_ascii c <? 128)%nat = true ->
  (nat_of_ascii (Py.lower_ascii c) <? 128)%nat = true.
Proof.
  destruct c as [[] [] [] [] [] [] [] []]; intros H; vm_compute in H |- *; congruence.
Qed.

Lemma lower_ascii_only (s : string) :
  Label.ascii_only s = true -> Label.ascii_only (Py.lower s) = true.
Proof.
  unfold Label.ascii_only.
  induction s as [|c s IH]; [reflexivity|].
  cbn [Py.lower list_ascii_of_string forallb].
  intros H. apply andb_prop in H. destruct H as [Hc Hs].
  now rewrite (lower_ascii_below_128 c Hc), (IH Hs).
Qed.

(** On a table whose labels are ASCII text, where [Py.lower] is
    [str.lower]: the renaming of the capitalised labels changes nothing that
    the lower-casing would not do, so the later variant normalises the
    labels as the earlier one does; the normalised labels are ASCII text
    again, and normalising them again changes nothing; and the two variants
    run the same column check. *)
Theorem rename_is_redundant (data : DataFrame.t) :
  forallb Label.ascii_only (DataFrame.columns data) = true ->
  Enhanced.normalize data = DataFrame.lower_columns data
  /\ forallb Label.ascii_only (DataFrame.columns (Enhanced.normalize data)) = true
  /\ Enhanced.normalize (Enhanced.normalize data) = Enhanced.normalize data
  /\ Earlier.check_columns data
     = option_map missing_column
         (first_missing required_cols (DataFrame.columns (Enhanced.normalize data))).
Proof.
  intros Hascii. pose proof normalize_lower as H1.
  split; [apply H1|]. split; [|split].
  - rewrite H1. unfold DataFrame.lower_columns. cbn [DataFrame.columns].
    induction (DataFrame.columns data) as [|c cols IH]; [reflexivity|].
    cbn [map forallb] in *. apply andb_prop in Hascii. destruct Hascii as [Hc Hcols].
    now rewrite (lower_ascii_only c Hc), (IH Hcols).
  - rewrite !H1. unfold DataFrame.lower_columns.
    cbn [DataFrame.columns DataFrame.rows]. f_equal.
    rewrite map_map. apply map_ext. apply lower_idempotent.
  - rewrite H1. unfold Earlier.check_columns, DataFrame.lower_columns.
    cbn [DataFrame.columns]. now destruct (first_missing _ _).
Qed.

(** The table with the capitalised labels [Open] ... [Volume]. *)
Lemma rename_is_redundant_witness :
  Enhanced.normalize (Sample.flat_market 3) = DataFrame.lower_columns (Sample.flat_market 3)
  /\ DataFrame.columns (Enhanced.normalize (Sample.flat_market 3)) = required_cols.
Proof.
  split; [|reflexivity].
  exact (proj1 (rename_is_redundant (Sample.flat_market 3) eq_refl)).
Defined.

(** * Dropping incomplete rows *)

Lemma filter_idempotent {A : Type} (f : A -> bool) (l : list A) :
  filter f (filter f l) = filter f l.
Proof.
  induction l as [|a l IH]; simpl; [reflexivity|].
  destruct (f a) eqn:E; simpl; [now rewrite E, IH | exact IH].
Qed.

Lemma complete_lookup (subset : list string) (c : string) :
  In c subset ->
  forall cols cs,
    forallb (fun nc => negb (Py.contains (fst nc) subset && Py.isna (snd nc)))
            (combine cols cs) = true ->
    In c cols -> List.length cols = List.length cs ->
    Py.isna (DataFrame.lookup cols cs c) = false.
Proof.
  intros Hc. induction cols as [|k cols IH]; intros cs Hall Hin Hlen; [contradiction|].
  destruct cs as [|x cs]; [discriminate|]. simpl in *.
  apply andb_prop in Hall. destruct Hall as [Hx Hall].
  destruct (String.eqb_spec k c) as [-> | Hne].
  - apply contains_In in Hc. rewrite Hc in Hx. simpl in Hx.
    now destruct (Py.isna x).
  - apply IH; [exact Hall | | congruence].
    destruct Hin; [congruence | assumption].
Qed.

(** After [dropna(subset)], every row that has one cell per column holds
    a number in each column of [subset] that the table has; and dropping
    again removes nothing more. *)
Theorem dropna_leaves_numbers (subset : list string) (df : DataFrame.t) :
  DataFrame.dropna subset (DataFrame.dropna subset df) = DataFrame.dropna subset df
  /\ forall r c,
       In r (DataFrame.rows (DataFrame.dropna subset df)) ->
       List.length (DataFrame.cells r) = List.length (DataFrame.columns df) ->
       In c subset -> In c (DataFrame.columns df) ->
       In r (DataFrame.rows df)
       /\ Py.isna (DataFrame.get (DataFrame.dropna subset df) r c) = false.
Proof.
  split.
  - unfold DataFrame.dropna. simpl. now rewrite filter_idempotent.
  - intros r c Hr Hlen Hc Hcol. unfold DataFrame.dropna in Hr. simpl in Hr.
    apply filter_In in Hr. destruct Hr as [Hr Hcomp]. split; [exact Hr|].
    unfold DataFrame.get, DataFrame.dropna. simpl.
    now apply (complete_lookup subset c Hc).
Qed.

Lemma dropna_leaves_numbers_witness :
  Py.isna (DataFrame.get (Enhanced.clean (Sample.flat_market 3))
             (DataFrame.mkRow 1 [100; 101; 99; 100.5; 1000]%float) "close")
  = false.
Proof.
  exact (proj2 (proj2 (dropna_leaves_numbers required_cols
                         (Enhanced.normalize (Sample.flat_market 3)))
                  (DataFrame.mkRow 1 [100; 101; 99; 100.5; 1000]%float) "close"%string
                  (or_intror (or_introl eq_refl)) eq_refl
                  (or_intror (or_intror (or_intror (or_introl eq_refl))))
                  (or_intror (or_intror (or_intror (or_introl eq_refl)))))).
Defined.

(** * The shape of what [run] returns *)

(** Whenever [run] returns a table, it is the input itself when that is
    empty, and otherwise the input with lower-cased labels and without the
    rows that lack a required cell, the other rows in their order and with
    their cells; and there is exactly one decision for each of its rows. *)
Theorem run_output_shape
  (indicators : DataFrame.t -> exn + (nat -> Enhanced.Ind))
  (p : Enhanced.Params) (data : DataFrame.t) (out : Output) :
  Enhanced.run indicators p data = inr out ->
  frame out = (if DataFrame.empty data then data else Enhanced.clean data)
  /\ DataFrame.rows (Enhanced.clean data)
     = filter (DataFrame.row_complete required_cols
                 (map Py.lower (DataFrame.columns data)))
         (DataFrame.rows data)
  /\ List.length (decisions out) = DataFrame.len (frame out).
Proof.
  intros H.
  assert (Hrows : DataFrame.rows (Enhanced.clean data)
                  = filter (DataFrame.row_complete required_cols
                              (map Py.lower (DataFrame.columns data)))
                      (DataFrame.rows data)).
  { unfold Enhanced.clean. rewrite normalize_lower. reflexivity. }
  revert H. unfold Enhanced.run.
  destruct (DataFrame.empty data).
  - intros [= <-]. split; [reflexivity|]. split; [exact Hrows|].
    apply stamp_hold_decisions.
  - destruct (first_missing _ _); [discriminate|].
    fold (Enhanced.clean data).
    destruct (Nat.ltb _ 200).
    + intros [= <-]. split; [reflexivity|]. split; [exact Hrows|].
      apply stamp_hold_decisions.
    + destruct (indicators _) as [e|f].
      * intros [= <-]. split; [reflexivity|]. split; [exact Hrows|].
        apply stamp_hold_decisions.
      * intros H. apply strategy_logic_shape in H. destruct H as [-> H].
        split; [reflexivity|]. split; [exact Hrows | exact H].
Qed.

Lemma run_output_shape_witness :
  List.length
    (decisions (stamp_hold (Enhanced.clean (Sample.flat_market 199))))
  = DataFrame.len (frame (stamp_hold (Enhanced.clean (Sample.flat_market 199)))).
Proof.
  exact (proj2 (proj2 (run_output_shape Sample.steady_indicators
                         Enhanced.default_params (Sample.flat_market 199)
                         (stamp_hold (Enhanced.clean (Sample.flat_market 199)))
                         eq_refl))).
Defined.

(** * Where the loop starts *)

(** [first_valid_index] is the least label among the rows whose five
    start-up indicators are all defined, and there is none exactly when no
    row has them all. *)
Theorem first_valid_index_least (bars : list Enhanced.Bar) :
  match Enhanced.first_valid_index bars with
  | None =>
      forall b, In b bars -> Enhanced.start_ready (Enhanced.ind b) = false
  | Some m =>
      (exists b, In b bars /\ Enhanced.index b = m
                 /\ Enhanced.start_ready (Enhanced.ind b) = true)
      /\ forall b, In b bars -> Enhanced.start_ready (Enhanced.ind b) = true ->
                   (m <= Enhanced.index b)%Z
  end.
Proof.
  induction bars as [|a bars IH]; simpl; [contradiction|].
  destruct (Enhanced.start_ready (Enhanced.ind a)) eqn:Ea.
  - destruct (Enhanced.first_valid_index bars) as [m|].
    + destruct IH as [(b & Hb & Hm & Hr) Hleast]. split.
      * destruct (Z.min_spec (Enhanced.index a) m) as [[_ ->] | [_ ->]].
        -- exists a. auto.
        -- exists b. auto.
      * intros c [<- | Hc] Hrc; [lia|].
        specialize (Hleast c Hc Hrc). lia.
    + split.
      * exists a. auto.
      * intros c [<- | Hc] Hrc; [lia|]. rewrite (IH c Hc) in Hrc. discriminate.
  - destruct (Enhanced.first_valid_index bars) as [m|].
    + destruct IH as [(b & Hb & Hm & Hr) Hleast]. split.
      * exists b. auto.
      * intros c [<- | Hc] Hrc; [congruence | auto].
    + intros c [<- | Hc]; auto.
Qed.

Lemma bars_from_nth_index (df : DataFrame.t) (f : nat -> Enhanced.Ind)
  (d : Enhanced.Bar) (d' : DataFrame.Row) (rs : list DataFrame.Row) :
  forall j k,
    (k < List.length rs)%nat ->
    Enhanced.index (nth k (Enhanced.bars_from df f j rs) d)
    = DataFrame.label (nth k rs d').
Proof.
  induction rs as [|r rs IH]; intros j k Hk; simpl in *; [lia|].
  destruct k as [|k]; [reflexivity|]. apply IH. lia.
Qed.

Lemma warm_up_rows (p : Enhanced.Params) (start : Z) (bars : list Enhanced.Bar) :
  forall st k,
    (k < List.length bars)%nat ->
    (Enhanced.index (nth k bars (Sample.bar 0 0 0 0 Sample.trending_up)) < start)%Z ->
    nth k (Enhanced.strategy_loop p start st bars) hold_nan = hold_nan.
Proof.
  induction bars as [|b bars IH]; intros st k Hk Hlt; simpl in *; [lia|].
  destruct k as [|k].
  - destruct (Z.leb_spec start (Enhanced.index b)); [lia | reflexivity].
  - destruct (start <=? Enhanced.index b)%Z.
    + destruct (Enhanced.step p st b) as [st' d]. simpl. apply IH; [lia | exact Hlt].
    + simpl. apply IH; [lia | exact Hlt].
Qed.

(** In the table the strategy logic returns, a row whose label is below
    the first valid label keeps [HOLD] and NaN levels, wherever it stands
    in the table; and when no row has its start-up indicators defined,
    every row does. *)
Theorem warm_up_rows_hold (p : Enhanced.Params) (df : DataFrame.t)
  (f : nat -> Enhanced.Ind) (out : Output) :
  Enhanced.strategy_logic p df f = inr out ->
  match Enhanced.first_valid_index (Enhanced.bars_of df f) with
  | None => out = stamp_hold df
  | Some start =>
      forall k,
        (k < DataFrame.len df)%nat ->
        (DataFrame.label (nth k (DataFrame.rows df) (DataFrame.mkRow 0 [])) < start)%Z ->
        nth k (decisions out) hold_nan = hold_nan
  end.
Proof.
  unfold Enhanced.strategy_logic.
  destruct (Enhanced.first_valid_index _) as [start|]; [|now intros [= <-]].
  destruct (Enhanced.has_duplicate _); [discriminate|].
  intros [= <-] k Hk Hlt. simpl.
  assert (Hlen : List.length (Enhanced.bars_of df f) = DataFrame.len df)
    by apply bars_from_length.
  apply warm_up_rows; [lia|].
  unfold Enhanced.bars_of.
  rewrite (bars_from_nth_index df f _ (DataFrame.mkRow 0 [])) by exact Hk.
  exact Hlt.
Qed.

Lemma warm_up_rows_hold_witness :
  nth 1 (decisions Scenario.late_run) hold_nan = hold_nan.
Proof.
  exact (warm_up_rows_hold Enhanced.default_params (Sample.flat_market 4)
           Scenario.late_start Scenario.late_run eq_refl 1%nat
           (le_S 2 3 (le_S 2 2 (le_n 2))) eq_refl).
Defined.

(** * The [trade_type] column as a record of the position *)

Lemma step_transition (p : Enhanced.Params) (st : Enhanced.State) (b : Enhanced.Bar) :
  Trace.allowed (Enhanced.position st) (trade_type (snd (Enhanced.step p st b))) = true
  /\ Enhanced.position (fst (Enhanced.step p st b))
     = Trace.after (Enhanced.position st) (trade_type (snd (Enhanced.step p st b))).
Proof.
  unfold Enhanced.step.
  destruct (Enhanced.essential_isnull (Enhanced.ind b)); [now split|].
  destruct (Enhanced.exit_triggered st b) eqn:He.
  - destruct (Enhanced.position st) eqn:Hpos; [now split|].
    now rewrite (flat_never_exits st b Hpos) in He.
  - unfold Enhanced.execute_trades. simpl.
    destruct (Enhanced.position st) as [[|]|];
      repeat match goal with |- context [if ?c then _ else _] => destruct c end;
      now split.
Qed.

Lemma loop_trace (p : Enhanced.Params) (start : Z) (bars : list Enhanced.Bar) :
  forall st,
    Trace.well_formed (Enhanced.position st)
      (map trade_type (Enhanced.strategy_loop p start st bars)) = true
    /\ Trace.replay (Enhanced.position st)
         (map trade_type (Enhanced.strategy_loop p start st bars))
       = Enhanced.position (Enhanced.state_after p start st bars).
Proof.
  unfold Trace.replay.
  induction bars as [|b bars IH]; intros st; simpl; [now split|].
  destruct (start <=? Enhanced.index b)%Z.
  - destruct (step_transition p st b) as [Ha Hn].
    destruct (Enhanced.step p st b) as [st' d]. simpl in *.
    rewrite Ha, <- Hn. apply IH.
  - simpl. apply IH.
Qed.

Lemma all_hold_trace (n : nat) (side : option Side) :
  Trace.well_formed side (map trade_type (repeat hold_nan n)) = true.
Proof. induction n; simpl; auto. Qed.

(** In every table [run] returns, the [trade_type] column read from the
    top, starting flat, is a possible history of one position: [LONG] and
    [SHORT] stand only on rows reached flat, [CLOSE] only on rows reached
    with a position open, and no row carries a reversal. *)
Theorem trade_types_well_formed
  (indicators : DataFrame.t -> exn + (nat -> Enhanced.Ind))
  (p : Enhanced.Params) (data : DataFrame.t) (out : Output) :
  Enhanced.run indicators p data = inr out ->
  Trace.well_formed None (map trade_type (decisions out)) = true
  /\ Forall (fun d => trade_type d <> REVERSE_LONG /\ trade_type d <> REVERSE_SHORT)
       (decisions out).
Proof.
  assert (Hhold : forall df,
             Trace.well_formed None (map trade_type (decisions (stamp_hold df))) = true
             /\ Forall (fun d => trade_type d <> REVERSE_LONG
                                 /\ trade_type d <> REVERSE_SHORT)
                  (decisions (stamp_hold df))).
  { intros df. rewrite stamp_hold_repeat. split; [apply all_hold_trace|].
    induction (DataFrame.len df); simpl; constructor; auto.
    split; discriminate. }
  unfold Enhanced.run.
  destruct (DataFrame.empty data); [intros [= <-]; apply Hhold|].
  destruct (first_missing _ _); [discriminate|].
  destruct (Nat.ltb _ 200); [intros [= <-]; apply Hhold|].
  destruct (indicators _) as [e|f]; [intros [= <-]; apply Hhold|].
  unfold Enhanced.strategy_logic.
  destruct (Enhanced.first_valid_index _) as [start|]; [|intros [= <-]; apply Hhold].
  destruct (Enhanced.has_duplicate _); [discriminate|].
  intros [= <-]. simpl. split.
  - apply (loop_trace p start _ Enhanced.initial_state).
  - generalize Enhanced.initial_state.
    induction (Enhanced.bars_of _ f) as [|b bars IH]; intros st; simpl; [constructor|].
    destruct (start <=? Enhanced.index b)%Z.
    + pose proof (no_reversal_stamped p st b) as Hn.
      destruct (Enhanced.step p st b) as [st' d]. constructor; [exact Hn | apply IH].
    + constructor; [split; discriminate | apply IH].
Qed.

Lemma trade_types_well_formed_witness :
  Trace.well_formed None (map trade_type (decisions Scenario.trending_run)) = true.
Proof.
  exact (proj1 (trade_types_well_formed Sample.steady_indicators Enhanced.default_params
                  (Sample.flat_market 200) Scenario.trending_run eq_refl)).
Defined.

(** The position can be read back from the column: replaying the stamps of
    the rows the loop has written gives the side the loop holds. *)
Theorem trade_types_replay (p : Enhanced.Params) (start : Z)
  (bars : list Enhanced.Bar) :
  Trace.replay None
    (map trade_type (Enhanced.strategy_loop p start Enhanced.initial_state bars))
  = Enhanced.position (Enhanced.state_after p start Enhanced.initial_state bars).
Proof. apply (loop_trace p start bars Enhanced.initial_state). Qed.

(** * Rows that hold *)

(** A [HOLD] row leaves the side, the entry price, the stop-loss and the
    take-profit as they were, and records that stop-loss and take-profit:
    from the entry to the exit only the trailing stop moves. *)
Theorem hold_keeps_fixed_levels (p : Enhanced.Params) (st : Enhanced.State)
  (b : Enhanced.Bar) :
  trade_type (snd (Enhanced.step p st b)) = HOLD ->
  Enhanced.position (fst (Enhanced.step p st b)) = Enhanced.position st
  /\ Enhanced.entry_price (fst (Enhanced.step p st b)) = Enhanced.entry_price st
  /\ Enhanced.sl (fst (Enhanced.step p st b)) = Enhanced.sl st
  /\ Enhanced.tp (fst (Enhanced.step p st b)) = Enhanced.tp st
  /\ SL (snd (Enhanced.step p st b)) = Enhanced.sl st
  /\ TP (snd (Enhanced.step p st b)) = Enhanced.tp st.
Proof.
  unfold Enhanced.step.
  destruct (Enhanced.essential_isnull (Enhanced.ind b)); [now repeat split|].
  destruct (Enhanced.exit_triggered st b); [discriminate|].
  unfold Enhanced.execute_trades. simpl.
  destruct (Enhanced.position st) as [[|]|];
    repeat match goal with |- context [if ?c then _ else _] => destruct c end;
    simpl; try discriminate; now repeat split.
Qed.

Lemma hold_keeps_fixed_levels_witness :
  SL (snd (Enhanced.step Enhanced.default_params Sample.long_100 Sample.drift_bar))
  = 97.5%float
  /\ TP (snd (Enhanced.step Enhanced.default_params Sample.long_100 Sample.drift_bar))
     = 103%float.
Proof.
  destruct (hold_keeps_fixed_levels Enhanced.default_params Sample.long_100
              Sample.drift_bar eq_refl) as (_ & _ & _ & _ & H1 & H2).
  split; [exact H1 | exact H2].
Defined.

(** * The stop-loss test behind the trailing stop *)

Lemma ratchet_keeps_stop_inside (p : Enhanced.Params) (st : Enhanced.State)
  (b : Enhanced.Bar) :
  Spec.levels_match_side st = true ->
  Trace.stop_inside_trail st = true ->
  Trace.stop_inside_trail
    {| Enhanced.position := Enhanced.position st;
       Enhanced.entry_price := Enhanced.entry_price st;
       Enhanced.sl := Enhanced.sl st;
       Enhanced.tp := Enhanced.tp st;
       Enhanced.tsl := Enhanced.ratchet p st b |} = true.
Proof.
  unfold Trace.stop_inside_trail. simpl. intros Hm Hs.
  destruct (Enhanced.position st) as [side|] eqn:Hpos; [|reflexivity].
  assert (Hn : Py.isna (Enhanced.tsl st) = false).
  { apply matched_open; [exact Hm | congruence]. }
  destruct side.
  - destruct (ratchet_long p st b Hpos) as [_ H]. specialize (H Hn).
    unfold Py.le in *. now apply (FloatOrder.leb_trans _ (Enhanced.tsl st)).
  - destruct (ratchet_short p st b Hpos) as [_ H]. specialize (H Hn).
    unfold Py.ge in *. now apply (FloatOrder.leb_trans _ (Enhanced.tsl st)).
Qed.

Lemma entry_stop_inside (st : Enhanced.State) :
  Spec.levels_match_side st = true ->
  Enhanced.tsl st = Enhanced.sl st ->
  Trace.stop_inside_trail st = true.
Proof.
  unfold Trace.stop_inside_trail. intros Hm E.
  destruct (Enhanced.position st) as [side|] eqn:Hpos; [|reflexivity].
  assert (Hn : Py.isna (Enhanced.sl st) = false).
  { apply matched_open; [exact Hm | congruence]. }
  rewrite E. destruct side; now apply FloatFacts.leb_refl.
Qed.

Lemma step_keeps_stop_inside (p : Enhanced.Params) (st : Enhanced.State)
  (b : Enhanced.Bar) :
  Spec.usable_multipliers p = true ->
  Spec.finite_close b = true ->
  Spec.levels_match_side st = true ->
  Trace.stop_inside_trail st = true ->
  Trace.stop_inside_trail (fst (Enhanced.step p st b)) = true.
Proof.
  intros Hp Hc Hm Hs.
  destruct (Enhanced.essential_isnull (Enhanced.ind b)) eqn:Hn.
  - unfold Enhanced.step. now rewrite Hn.
  - pose proof (ratchet_keeps_stop_inside p st b Hm Hs) as H1.
    pose proof (open_long_defined p Hp b Hc Hn) as Hl.
    pose proof (open_short_defined p Hp b Hc Hn) as Hsh.
    unfold Enhanced.step. rewrite Hn.
    destruct (Enhanced.exit_triggered st b); [reflexivity|].
    unfold Enhanced.execute_trades. simpl.
    destruct (Enhanced.position st) as [[|]|];
      repeat match goal with |- context [if ?c then _ else _] => destruct c end;
      simpl fst; try exact H1;
      (apply entry_stop_inside; [assumption | reflexivity]).
Qed.

Lemma state_after_stop_inside (p : Enhanced.Params) (start : Z)
  (bars : list Enhanced.Bar) :
  Spec.usable_multipliers p = true ->
  forallb Spec.finite_close bars = true ->
  forall st,
    Spec.levels_match_side st = true -> Trace.stop_inside_trail st = true ->
    Trace.stop_inside_trail (Enhanced.state_after p start st bars) = true.
Proof.
  intros Hp. induction bars as [|b bars IH]; simpl; intros Hall st Hm Hs; [exact Hs|].
  apply andb_prop in Hall. destruct Hall as [Hb Hall].
  destruct (start <=? Enhanced.index b)%Z; [|now apply IH].
  apply IH; [exact Hall | now apply step_matched | now apply step_keeps_stop_inside].
Qed.

(** On bars with a finite close the loop never holds a long position whose
    stop-loss is above its trailing stop, nor a short one whose stop-loss
    is below it.  So a bar that breaches the stop-loss breaches the
    trailing stop as well, and the stop-loss arm of the exit chain is never
    the one that fires. *)
Theorem stop_loss_arm_never_fires (p : Enhanced.Params) (start : Z)
  (bars : list Enhanced.Bar) (b : Enhanced.Bar) :
  Spec.usable_multipliers p = true ->
  forallb Spec.finite_close bars = true ->
  let st := Enhanced.state_after p start Enhanced.initial_state bars in
  Trace.stop_inside_trail st = true
  /\ Enhanced.exit_arm st b <> Some Enhanced.ArmStopLoss.
Proof.
  intros Hp Hbars st.
  assert (Hs : Trace.stop_inside_trail st = true)
    by (now apply state_after_stop_inside).
  split; [exact Hs|].
  unfold Enhanced.exit_arm, Trace.stop_inside_trail in *.
  destruct (Enhanced.position st) as [[|]|]; [| |discriminate].
  - unfold Enhanced.exit_arm_long.
    destruct (Py.le (Enhanced.low b) (Enhanced.tsl st)) eqn:E1; [discriminate|].
    destruct (Py.le (Enhanced.low b) (Enhanced.sl st)) eqn:E2.
    + unfold Py.le in *.
      now rewrite (FloatOrder.leb_trans _ _ _ E2 Hs) in E1.
    + repeat match goal with |- context [if ?c then _ else _] => destruct c end;
        discriminate.
  - unfold Enhanced.exit_arm_short.
    destruct (Py.ge (Enhanced.high b) (Enhanced.tsl st)) eqn:E1; [discriminate|].
    destruct (Py.ge (Enhanced.high b) (Enhanced.sl st)) eqn:E2.
    + unfold Py.ge in *.
      now rewrite (FloatOrder.leb_trans _ _ _ Hs E2) in E1.
    + repeat match goal with |- context [if ?c then _ else _] => destruct c end;
        discriminate.
Qed.

Lemma stop_loss_arm_never_fires_witness :
  Enhanced.exit_arm
    (Enhanced.state_after Enhanced.default_params 0 Enhanced.initial_state
       [Sample.up_bar; Sample.drift_bar])
    Sample.wide_bar
  <> Some Enhanced.ArmStopLoss.
Proof.
  exact (proj2 (stop_loss_arm_never_fires Enhanced.default_params 0
                  [Sample.up_bar; Sample.drift_bar] Sample.wide_bar
                  eq_refl eq_refl)).
Defined.

(** * The entry signals *)

Lemma gt_defined (x y : float) :
  Py.gt x y = true -> Py.isna x = false /\ Py.isna y = false.
Proof. intros H. apply FloatOrder.ltb_defined in H. tauto. Qed.

Lemma lt_defined (x y : float) :
  Py.lt x y = true -> Py.isna x = false /\ Py.isna y = false.
Proof. apply FloatOrder.ltb_defined. Qed.

Lemma ge_defined (x y : float) :
  Py.ge x y = true -> Py.isna x = false /\ Py.isna y = false.
Proof. intros H. apply FloatOrder.leb_defined in H. tauto. Qed.

Lemma le_defined (x y : float) :
  Py.le x y = true -> Py.isna x = false /\ Py.isna y = false.
Proof. apply FloatOrder.leb_defined. Qed.

Ltac split_signal H :=
  repeat match type of H with
         | (_ && _)%bool = true =>
             let H' := fresh "Hc" in
             apply andb_prop in H; destruct H as [H H']
         end.

(** The long and the short signal never fire on the same bar, in either
    variant: one needs the fast average above the slow one, the other
    below. *)
Theorem signals_exclude_each_other :
  (forall p b, Enhanced.long_signal p b && Enhanced.short_signal p b = false)
  /\ (forall e, Earlier.long_signal e && Earlier.short_signal e = false).
Proof.
  split.
  - intros p b.
    destruct (Enhanced.long_signal p b) eqn:Hl; [|reflexivity].
    destruct (Enhanced.short_signal p b) eqn:Hs; [|reflexivity].
    apply long_signal_trend in Hl. apply short_signal_trend in Hs.
    unfold Py.gt, Py.lt in *. now rewrite (FloatFacts.ltb_asym _ _ Hl) in Hs.
  - intros e.
    destruct (Earlier.long_signal e) eqn:Hl; [|reflexivity].
    destruct (Earlier.short_signal e) eqn:Hs; [|reflexivity].
    unfold Earlier.long_signal in Hl. unfold Earlier.short_signal in Hs.
    split_signal Hl. split_signal Hs.
    unfold Py.gt, Py.lt in *. now rewrite (FloatFacts.ltb_asym _ _ Hl) in Hs.
Qed.

(** A signal fires only on a bar where every value it compares is defined.
    In the later variant these are all the essential indicators but the ATR;
    in the earlier variant, which has no safety check, the five values its
    signals read. *)
Theorem signal_needs_defined_inputs :
  (forall p b,
     Enhanced.long_signal p b = true \/ Enhanced.short_signal p b = true ->
     Py.isna (Enhanced.close b) = false
     /\ Enhanced.essential_isnull (Sample.with_atr (Enhanced.ind b) 1) = false)
  /\ (forall e,
        Earlier.long_signal e = true \/ Earlier.short_signal e = true ->
        Py.isna (Earlier.price e) = false /\ Py.isna (Earlier.ema_50 e) = false
        /\ Py.isna (Earlier.ema_200 e) = false /\ Py.isna (Earlier.vwap e) = false
        /\ Py.isna (Earlier.bb_width e) = false /\ Py.isna (Earlier.rsi e) = false).
Proof.
  split.
  - intros p b H. unfold Enhanced.essential_isnull. simpl.
    destruct H as [H | H];
      [unfold Enhanced.long_signal in H | unfold Enhanced.short_signal in H];
      split_signal H;
      repeat match goal with
             | Hx : Py.gt _ _ = true |- _ => apply gt_defined in Hx; destruct Hx
             | Hx : Py.lt _ _ = true |- _ => apply lt_defined in Hx; destruct Hx
             | Hx : Py.ge _ _ = true |- _ => apply ge_defined in Hx; destruct Hx
             | Hx : Py.le _ _ = true |- _ => apply le_defined in Hx; destruct Hx
             end;
      repeat match goal with
             | Hx : Py.isna ?x = false |- context [Py.isna ?x] => rewrite Hx
             end; split; reflexivity.
  - intros e H.
    destruct H as [H | H];
      [unfold Earlier.long_signal in H | unfold Earlier.short_signal in H];
      split_signal H;
      repeat match goal with
             | Hx : Py.gt _ _ = true |- _ => apply gt_defined in Hx; destruct Hx
             | Hx : Py.lt _ _ = true |- _ => apply lt_defined in Hx; destruct Hx
             | Hx : Py.ge _ _ = true |- _ => apply ge_defined in Hx; destruct Hx
             | Hx : Py.le _ _ = true |- _ => apply le_defined in Hx; destruct Hx
             end; repeat split; assumption.
Qed.

Lemma signal_needs_defined_inputs_witness :
  Enhanced.essential_isnull
    (Sample.with_atr (Enhanced.ind Sample.up_bar) 1) = false.
Proof.
  exact (proj2 (proj1 signal_needs_defined_inputs Enhanced.default_params
                  Sample.up_bar (or_introl eq_refl))).
Defined.

(** * The loop of the earlier variant *)

Lemma nan_stop (x a : float) :
  Py.isna a = true ->
  (x - a * Earlier.atr_mult)%float = nan /\ (x + a * Earlier.atr_mult)%float = nan
  /\ (x + a * Earlier.atr_mult * Earlier.reward_ratio)%float = nan
  /\ (x - a * Earlier.atr_mult * Earlier.reward_ratio)%float = nan.
Proof.
  intros H. unfold Py.isna in H.
  pose proof (FloatOrder.mul_nan_l a Earlier.atr_mult H) as H1.
  pose proof (FloatOrder.mul_nan_l _ Earlier.reward_ratio H1) as H2.
  repeat split; apply FloatOrder.nan_unique;
    auto using FloatOrder.sub_nan_r, FloatOrder.add_nan_r.
Qed.

Lemma nan_never_hit (side : Side) (e : Earlier.Bar) :
  Earlier.hit_tsl (Some (side, nan)) e = false.
Proof.
  destruct side; unfold Earlier.hit_tsl, Py.lt, Py.gt.
  - apply FloatFacts.ltb_nan_r. reflexivity.
  - apply FloatFacts.ltb_nan_l. reflexivity.
Qed.

(** The earlier variant does not look at the ATR before it enters.  With an
    undefined ATR it opens the position with an undefined stop-loss,
    take-profit and trailing stop; an undefined trailing stop is never hit,
    and it stays undefined for as long as the position is held on the same
    side. *)
Theorem earlier_undefined_atr (e : Earlier.Bar) :
  (Py.isna (Earlier.atr e) = true ->
   (Earlier.long_signal e = true ->
    Earlier.step None e = (Some (PosLong, nan), mkDecision LONG nan nan nan))
   /\ (Earlier.long_signal e = false -> Earlier.short_signal e = true ->
       Earlier.step None e = (Some (PosShort, nan), mkDecision SHORT nan nan nan)))
  /\ (forall side, Earlier.hit_tsl (Some (side, nan)) e = false)
  /\ (forall side tsl,
        fst (Earlier.step (Some (side, nan)) e) = Some (side, tsl) ->
        Earlier.long_signal e = false \/ side = PosLong ->
        Earlier.short_signal e = false \/ side = PosShort ->
        tsl = nan).
Proof.
  split; [|split].
  - intros Ha. destruct (nan_stop (Earlier.price e) (Earlier.atr e) Ha)
      as (H1 & H2 & H3 & H4).
    unfold Earlier.step, Earlier.enter_long, Earlier.enter_short. simpl.
    split.
    + intros Hl. now rewrite Hl, H1, H3.
    + intros Hl Hs. now rewrite Hl, Hs, H2, H4.
  - intros [|]; apply nan_never_hit.
  - intros side tsl. unfold Earlier.step.
    rewrite nan_never_hit.
    unfold Earlier.keep, Earlier.py_max, Earlier.py_min, Earlier.enter_long,
      Earlier.enter_short.
    assert (Hg : forall x, Py.gt x nan = false)
      by (intros x; apply FloatFacts.ltb_nan_l; reflexivity).
    assert (Hl : forall x, Py.lt x nan = false)
      by (intros x; apply FloatFacts.ltb_nan_r; reflexivity).
    destruct (Earlier.long_signal e), (Earlier.short_signal e), side;
      rewrite ?Hg, ?Hl; cbn [fst];
      repeat match goal with |- context [if ?c then _ else _] => destruct c end;
      cbn [fst]; intros E [H1 | H1] [H2 | H2];
      try discriminate; congruence.
Qed.

Lemma earlier_undefined_atr_witness :
  Earlier.step None
    {| Earlier.price := 101; Earlier.atr := nan; Earlier.bb_width := 0.05;
       Earlier.rsi := 60; Earlier.ema_50 := 101; Earlier.ema_200 := 100;
       Earlier.vwap := 100 |}
  = (Some (PosLong, nan), mkDecision LONG nan nan nan).
Proof.
  exact (proj1 (proj1 (earlier_undefined_atr
                         {| Earlier.price := 101; Earlier.atr := nan;
                            Earlier.bb_width := 0.05; Earlier.rsi := 60;
                            Earlier.ema_50 := 101; Earlier.ema_200 := 100;
                            Earlier.vwap := 100 |})
                  eq_refl) eq_refl).
Defined.

(** In the earlier variant the [SL] and [TP] cells are written on entries
    and reversals only, where the [TSL] cell equals the [SL] cell and is
    the trailing stop of the position opened; on a [HOLD] row they are NaN
    and the [TSL] cell is the trailing stop held, if any; on a [CLOSE] row
    all three are NaN and no position is left. *)
Theorem earlier_row_cells (st : Earlier.State) (b : Earlier.Bar) :
  let st' := fst (Earlier.step st b) in
  let d := snd (Earlier.step st b) in
  match trade_type d with
  | HOLD => SL d = nan /\ TP d = nan /\ TSL d = Earlier.tsl_cell st'
            /\ Trace.side_of st' = Trace.side_of st
  | CLOSE => SL d = nan /\ TP d = nan /\ TSL d = nan /\ st' = None /\ st <> None
  | LONG | REVERSE_LONG => TSL d = SL d /\ st' = Some (PosLong, SL d)
  | SHORT | REVERSE_SHORT => TSL d = SL d /\ st' = Some (PosShort, SL d)
  end.
Proof.
  unfold Earlier.step, Earlier.keep, Earlier.enter_long, Earlier.enter_short.
  destruct st as [[[|] tsl]|]; cbn [Earlier.hit_tsl];
    repeat match goal with |- context [if ?c then _ else _] => destruct c end;
    cbn; repeat split; discriminate.
Qed.

Lemma earlier_step_transition (st : Earlier.State) (b : Earlier.Bar) :
  Trace.allowed (Trace.side_of st) (trade_type (snd (Earlier.step st b))) = true
  /\ Trace.side_of (fst (Earlier.step st b))
     = Trace.after (Trace.side_of st) (trade_type (snd (Earlier.step st b))).
Proof.
  unfold Earlier.step, Earlier.keep, Earlier.enter_long, Earlier.enter_short.
  destruct st as [[[|] tsl]|]; cbn [Earlier.hit_tsl];
    repeat match goal with |- context [if ?c then _ else _] => destruct c end;
    cbn; split; reflexivity.
Qed.

Lemma earlier_from_trace (bars : list Earlier.Bar) :
  forall st,
    List.length (EarlierLoop.from st bars) = List.length bars
    /\ Trace.well_formed (Trace.side_of st)
         (map trade_type (EarlierLoop.from st bars)) = true
    /\ Trace.replay (Trace.side_of st) (map trade_type (EarlierLoop.from st bars))
       = Trace.side_of (EarlierLoop.state_from st bars).
Proof.
  unfold Trace.replay.
  induction bars as [|b bars IH]; intros st; simpl; [now repeat split|].
  destruct (earlier_step_transition st b) as [Ha Hn].
  destruct (Earlier.step st b) as [st' d]. simpl in *.
  rewrite Ha, <- Hn. destruct (IH st') as (H1 & H2 & H3).
  repeat split; [now rewrite H1 | exact H2 | exact H3].
Qed.

(** The earlier variant writes one decision per row; the first 20 rows, and
    so every row of a table of at most 20, keep [HOLD] and NaN; and its
    [trade_type] column too is a possible history of one position, read
    from the top starting flat, here with reversals between opposite
    sides. *)
Theorem earlier_loop_shape (bars : list Earlier.Bar) :
  List.length (EarlierLoop.strategy_loop bars) = List.length bars
  /\ firstn 20 (EarlierLoop.strategy_loop bars)
     = repeat hold_nan (Nat.min 20 (List.length bars))
  /\ Trace.well_formed None (map trade_type (EarlierLoop.strategy_loop bars)) = true.
Proof.
  unfold EarlierLoop.strategy_loop.
  destruct (earlier_from_trace (skipn 20 bars) None) as (H1 & H2 & _).
  assert (Hrep : map (fun _ : Earlier.Bar => hold_nan) (firstn 20 bars)
                 = repeat hold_nan (Nat.min 20 (List.length bars))).
  { rewrite <- (length_firstn 20 bars).
    induction (firstn 20 bars); simpl; congruence. }
  split; [|split].
  - rewrite length_app, length_map, H1, <- length_app, firstn_skipn. reflexivity.
  - rewrite Hrep, firstn_app, repeat_length.
    rewrite firstn_all2 by (rewrite repeat_length; lia).
    destruct (Nat.le_gt_cases 20 (List.length bars)) as [Hge | Hlt].
    + replace (20 - Nat.min 20 (List.length bars))%nat with 0%nat by lia.
      simpl. apply app_nil_r.
    + rewrite skipn_all2 by lia. simpl. rewrite firstn_nil. apply app_nil_r.
  - rewrite Hrep, map_app.
    generalize (Nat.min 20 (List.length bars)).
    intros n. induction n; simpl; [exact H2 | exact IHn].
Qed.

(** * The derived columns *)

Lemma zip_with_nth (f : float -> float -> float) (dx dy d : float)
  (xs : list float) :
  forall ys i,
    (i < List.length xs)%nat -> (i < List.length ys)%nat ->
    nth i (Series.zip_with f xs ys) d = f (nth i xs dx) (nth i ys dy).
Proof.
  induction xs as [|x xs IH]; intros ys i Hx Hy; simpl in *; [lia|].
  destruct ys as [|y ys]; simpl in *; [lia|].
  destruct i as [|i]; [reflexivity|]. apply IH; lia.
Qed.

Lemma zip_with_length (f : float -> float -> float) (xs : list float) :
  forall ys, List.length (Series.zip_with f xs ys)
             = Nat.min (List.length xs) (List.length ys).
Proof.
  induction xs as [|x xs IH]; intros ys; simpl; [reflexivity|].
  destruct ys as [|y ys]; simpl; [reflexivity|]. now rewrite IH.
Qed.

Lemma zip_with_firstn (f : float -> float -> float) (k : nat) :
  forall xs ys,
    firstn k (Series.zip_with f xs ys)
    = Series.zip_with f (firstn k xs) (firstn k ys).
Proof.
  induction k as [|k IH]; intros xs ys; [reflexivity|].
  destruct xs as [|x xs]; [reflexivity|].
  destruct ys as [|y ys]; [reflexivity|]. simpl. now rewrite IH.
Qed.

Lemma running_sum_firstn (k : nat) :
  forall acc xs,
    firstn k (Series.running_sum acc xs) = Series.running_sum acc (firstn k xs).
Proof.
  induction k as [|k IH]; intros acc xs; [reflexivity|].
  destruct xs as [|x xs]; [reflexivity|]. simpl. now rewrite IH.
Qed.

Lemma cumsum_firstn (k : nat) (xs : list float) :
  firstn k (Series.cumsum xs) = Series.cumsum (firstn k xs).
Proof.
  destruct k as [|k]; [reflexivity|].
  destruct xs as [|x xs]; [reflexivity|]. simpl. now rewrite running_sum_firstn.
Qed.

Lemma ffill_from_firstn (k : nat) :
  forall last xs,
    firstn k (Series.ffill_from last xs) = Series.ffill_from last (firstn k xs).
Proof.
  induction k as [|k IH]; intros last xs; [reflexivity|].
  destruct xs as [|x xs]; [reflexivity|]. simpl. now rewrite IH.
Qed.

Lemma vwap_firstn (k : nat) (close volume : list float) :
  firstn k (Derived.vwap close volume)
  = Derived.vwap (firstn k close) (firstn k volume).
Proof.
  unfold Derived.vwap, Series.ffill, Derived.raw_vwap, Derived.cum_vol_price,
    Derived.cum_vol, Series.div, Series.mul, Series.replace_zero.
  now rewrite ffill_from_firstn, zip_with_firstn, firstn_map, !cumsum_firstn,
    zip_with_firstn.
Qed.

(** Both derived columns are causal: the cells of the first [k] rows are
    what the first [k] rows alone would give, whatever follows them. *)
Theorem derived_columns_causal (k : nat) :
  (forall close volume,
     firstn k (Derived.vwap close volume)
     = Derived.vwap (firstn k close) (firstn k volume))
  /\ (forall upper lower mid,
        firstn k (Derived.bb_width upper lower mid)
        = Derived.bb_width (firstn k upper) (firstn k lower) (firstn k mid)).
Proof.
  split.
  - apply vwap_firstn.
  - intros upper lower mid.
    unfold Derived.bb_width, Series.div, Series.sub, Series.replace_zero.
    now rewrite !zip_with_firstn, firstn_map.
Qed.

Lemma div_by_nan (x : float) : (x / nan)%float = nan.
Proof. apply FloatOrder.nan_unique. apply FloatOrder.div_nan_r. reflexivity. Qed.

(** The width of the bands is the quotient by the middle band, except on a
    row whose middle band is zero: there it is NaN and not the outcome of a
    division by zero, and the loop leaves such a row to the safety check,
    which stamps [HOLD] and leaves the position as it is. *)
Theorem bb_width_guard (upper lower mid : list float) (i : nat) :
  (i < List.length upper)%nat -> (i < List.length lower)%nat ->
  (i < List.length mid)%nat ->
  nth i (Derived.bb_width upper lower mid) nan
  = (if Py.eq (nth i mid nan) 0 then nan
     else (nth i upper nan - nth i lower nan) / nth i mid nan)%float
  /\ (Py.eq (nth i mid nan) 0 = true ->
      forall p st b,
        Enhanced.bb_width (Enhanced.ind b)
        = nth i (Derived.bb_width upper lower mid) nan ->
        Enhanced.step p st b = (st, Enhanced.levels_of HOLD st)).
Proof.
  intros Hu Hl Hm.
  assert (H : nth i (Derived.bb_width upper lower mid) nan
              = (if Py.eq (nth i mid nan) 0 then nan
                 else (nth i upper nan - nth i lower nan) / nth i mid nan)%float).
  { unfold Derived.bb_width, Series.div, Series.sub, Series.replace_zero.
    rewrite (zip_with_nth _ nan nan).
    - rewrite (zip_with_nth _ nan nan) by assumption.
      change nan with (Series.replace_zero_cell nan) at 3. rewrite map_nth.
      unfold Series.replace_zero_cell.
      destruct (Py.eq (nth i mid nan) 0); [apply div_by_nan | reflexivity].
    - rewrite zip_with_length. lia.
    - now rewrite length_map. }
  split; [exact H|].
  intros Hz p st b Hb. rewrite H, Hz in Hb.
  unfold Enhanced.step, Enhanced.essential_isnull. rewrite Hb. simpl.
  now rewrite !orb_true_r.
Qed.

Lemma bb_width_guard_witness :
  nth 1 (Derived.bb_width [102; 1; 103]%float [98; -1; 99]%float
           [100; 0; 101]%float) nan = nan.
Proof.
  exact (proj1 (bb_width_guard [102; 1; 103]%float [98; -1; 99]%float
                  [100; 0; 101]%float 1 (le_S 2 2 (le_n 2)) (le_S 2 2 (le_n 2))
                  (le_S 2 2 (le_n 2)))).
Defined.

Lemma ffill_from_defined (xs : list float) :
  forall last, Py.isna last = false ->
               Forall (fun v => Py.isna v = false) (Series.ffill_from last xs).
Proof.
  induction xs as [|x xs IH]; intros last Hl; simpl; constructor.
  - destruct (Py.isna x) eqn:E; assumption.
  - apply IH. destruct (Py.isna x) eqn:E; assumption.
Qed.

Lemma ffill_from_after_defined (xs : list float) :
  forall last before v rest,
    Series.ffill_from last xs = before ++ v :: rest ->
    Py.isna v = false ->
    Forall (fun w => Py.isna w = false) rest.
Proof.
  induction xs as [|x xs IH]; intros last before v rest E Hv; simpl in E.
  - destruct before; discriminate.
  - destruct before as [|a before]; simpl in E; injection E as E1 E2.
    + subst. now apply ffill_from_defined.
    + now apply (IH _ _ _ _ E2).
Qed.

Lemma ffill_from_keeps (xs : list float) :
  forall last i,
    Py.isna (nth i xs nan) = false ->
    nth i (Series.ffill_from last xs) nan = nth i xs nan.
Proof.
  induction xs as [|x xs IH]; intros last i H; destruct i as [|i]; simpl in *;
    try discriminate.
  - now rewrite H.
  - now apply IH.
Qed.

Lemma ffill_from_length (xs : list float) :
  forall last, List.length (Series.ffill_from last xs) = List.length xs.
Proof. induction xs as [|x xs IH]; intros last; simpl; congruence. Qed.

Lemma cumsum_length (xs : list float) :
  List.length (Series.cumsum xs) = List.length xs.
Proof.
  destruct xs as [|x xs]; simpl; [reflexivity|]. f_equal.
  generalize (Series.zero_if_na x).
  induction xs as [|y xs IH]; intros acc; simpl; [reflexivity|]. now rewrite IH.
Qed.

Lemma raw_vwap_length (close volume : list float) :
  List.length (Derived.raw_vwap close volume)
  = Nat.min (List.length close) (List.length volume).
Proof.
  unfold Derived.raw_vwap, Series.div, Series.replace_zero.
  rewrite zip_with_length, length_map.
  unfold Derived.cum_vol_price, Derived.cum_vol, Series.mul.
  rewrite !cumsum_length, zip_with_length. lia.
Qed.

(** A cell of a filled column is the starting value, when no cell down to
    it is defined, and otherwise the nearest defined cell at or above it. *)
Lemma ffill_from_source (xs : list float) :
  forall last i,
    (i < List.length xs)%nat ->
    (nth i (Series.ffill_from last xs) nan = last
     /\ forall j, (j <= i)%nat -> Py.isna (nth j xs nan) = true)
    \/ exists j,
         (j <= i)%nat
         /\ Py.isna (nth j xs nan) = false
         /\ nth i (Series.ffill_from last xs) nan = nth j xs nan
         /\ forall k, (j < k)%nat -> (k <= i)%nat -> Py.isna (nth k xs nan) = true.
Proof.
  induction xs as [|x xs IH]; intros last i Hi; [simpl in Hi; lia|].
  destruct i as [|i].
  - cbn [Series.ffill_from nth]. destruct (Py.isna x) eqn:E.
    + left. split; [reflexivity|]. intros j Hj. now replace j with 0%nat by lia.
    + right. exists 0%nat. repeat split; [lia | exact E | intros k H1 H2; lia].
  - cbn [Series.ffill_from nth]. simpl in Hi.
    destruct (IH (if Py.isna x then last else x) i ltac:(lia))
      as [[Hv Hall] | (j & Hj & Hd & Hv & Hall)].
    + destruct (Py.isna x) eqn:E.
      * left. split; [exact Hv|]. intros [|j] Hj; [exact E | apply Hall; lia].
      * right. exists 0%nat. repeat split; [lia | exact E | exact Hv |].
        intros [|k] H1 H2; [lia | apply Hall; lia].
    + right. exists (S j). repeat split; [lia | exact Hd | exact Hv |].
      intros [|k] H1 H2; [lia | apply Hall; lia].
Qed.

(** The [vwap] column the frame holds after line 63, whether or not the
    in-place fill reaches the frame: it has one cell per row; a row whose
    quotient is defined holds that quotient; a defined cell is always the
    quotient of the nearest row at or above it whose quotient is defined.
    Where the fill reaches the frame (no copy-on-write), every row below a
    defined one is defined too; under copy-on-write each defined cell is
    the quotient of its own row. *)
Theorem vwap_forward_filled (copy_on_write : bool) (close volume : list float) :
  let raw := Derived.raw_vwap close volume in
  let col := Stored.vwap copy_on_write close volume in
  List.length col = Nat.min (List.length close) (List.length volume)
  /\ (forall i, Py.isna (nth i raw nan) = false -> nth i col nan = nth i raw nan)
  /\ (forall i,
        Py.isna (nth i col nan) = false ->
        exists j,
          (j <= i)%nat
          /\ Py.isna (nth j raw nan) = false
          /\ nth i col nan = nth j raw nan
          /\ (forall k, (j < k)%nat -> (k <= i)%nat -> Py.isna (nth k raw nan) = true)
          /\ (copy_on_write = true -> j = i))
  /\ (copy_on_write = false ->
      forall before v rest,
        col = before ++ v :: rest ->
        Py.isna v = false ->
        Forall (fun w => Py.isna w = false) rest).
Proof.
  intros raw col. subst raw col. unfold Stored.vwap.
  destruct copy_on_write.
  - split; [apply raw_vwap_length|]. split; [reflexivity|]. split; [|discriminate].
    intros i Hi. exists i. repeat split; [lia | exact Hi | intros k H1 H2; lia].
  - unfold Derived.vwap, Series.ffill.
    split; [rewrite ffill_from_length; apply raw_vwap_length|].
    split; [intros i; apply ffill_from_keeps|].
    split; [|intros _; apply ffill_from_after_defined].
    intros i Hi.
    assert (Hlt : (i < List.length (Derived.raw_vwap close volume))%nat).
    { destruct (Nat.lt_ge_cases i (List.length (Derived.raw_vwap close volume)))
        as [H | H]; [exact H|].
      rewrite nth_overflow in Hi by (now rewrite ffill_from_length). discriminate. }
    destruct (ffill_from_source (Derived.raw_vwap close volume) nan i Hlt)
      as [[Hv _] | (j & Hj & Hd & Hv & Hall)].
    + rewrite Hv in Hi. discriminate.
    + exists j. repeat split; [exact Hj | exact Hd | exact Hv | exact Hall | discriminate].
Qed.

(** The cumulative volume returns to zero on the second row: the quotients
    are 10, NaN and 11; the filled column is 10, 10 and 11. *)
Lemma vwap_forward_filled_witness :
  Derived.raw_vwap [10; 11; 12]%float [5; -5; 5]%float = [10; nan; 11]%float
  /\ Stored.vwap false [10; 11; 12]%float [5; -5; 5]%float = [10; 10; 11]%float
  /\ Forall (fun w => Py.isna w = false) [10; 11]%float.
Proof.
  split; [reflexivity|]. split; [reflexivity|].
  exact (proj2 (proj2 (proj2
           (vwap_forward_filled false [10; 11; 12]%float [5; -5; 5]%float)))
           eq_refl [] 10%float [10; 11]%float eq_refl eq_refl).
Defined.

Lemma running_sum_zeros (xs : list float) :
  forall acc,
    Py.eq acc 0 = true ->
    Forall (fun v => Py.eq v 0 = true) xs ->
    Forall (fun v => Py.eq v 0 = true) (Series.running_sum acc xs).
Proof.
  induction xs as [|x xs IH]; intros acc Ha Hx; simpl; constructor;
    inversion Hx as [|? ? Hx0 Hxs]; subst;
    assert (Hn : Py.isna x = false) by (apply (eqb_not_nan x 0 Hx0));
    unfold Series.zero_if_na; rewrite Hn.
  - now apply FloatOrder.add_zeros.
  - apply IH; [now apply FloatOrder.add_zeros | exact Hxs].
Qed.

Lemma cumsum_zeros (xs : list float) :
  Forall (fun v => Py.eq v 0 = true) xs ->
  Forall (fun v => Py.eq v 0 = true) (Series.cumsum xs).
Proof.
  destruct xs as [|x xs]; intros H; simpl; [constructor|].
  inversion H as [|? ? Hx0 Hxs]; subst.
  assert (Hn : Py.isna x = false) by (apply (eqb_not_nan x 0 Hx0)).
  unfold Series.zero_if_na. rewrite Hn. constructor; [exact Hx0|].
  now apply running_sum_zeros.
Qed.

Lemma quotient_by_replaced_zeros (ys : list float) :
  Forall (fun v => Py.eq v 0 = true) ys ->
  forall xs,
    Series.div xs (Series.replace_zero ys)
    = repeat nan (Nat.min (List.length xs) (List.length ys)).
Proof.
  induction 1 as [|y ys Hy Hys IH]; intros xs.
  - destruct xs; reflexivity.
  - destruct xs as [|x xs]; [reflexivity|].
    change (Series.div (x :: xs) (Series.replace_zero (y :: ys)))
      with ((x / Series.replace_zero_cell y)%float
              :: Series.div xs (Series.replace_zero ys)).
    unfold Series.replace_zero_cell. rewrite Hy, div_by_nan, IH. reflexivity.
Qed.

Lemma ffill_nans (n : nat) : Series.ffill_from nan (repeat nan n) = repeat nan n.
Proof. induction n; simpl; congruence. Qed.

(** As long as every row so far has a volume of zero, the [vwap] is NaN:
    the cumulative volume is zero, the guard turns it into NaN, and the
    forward fill has no earlier value to carry.  The leading zero-volume
    rows are therefore left to the safety check. *)
Theorem vwap_zero_volume_start (close volume : list float) (k : nat) :
  (k <= List.length close)%nat -> (k <= List.length volume)%nat ->
  Forall (fun v => Py.eq v 0 = true) (firstn k volume) ->
  firstn k (Derived.vwap close volume) = repeat nan k.
Proof.
  intros Hc Hv Hz.
  rewrite vwap_firstn.
  unfold Derived.vwap, Derived.raw_vwap, Derived.cum_vol, Series.ffill.
  rewrite quotient_by_replaced_zeros by (now apply cumsum_zeros).
  rewrite ffill_nans. f_equal.
  pose proof cumsum_length as Hlen.
  unfold Derived.cum_vol_price, Series.mul.
  rewrite !Hlen, zip_with_length, !length_firstn. lia.
Qed.

Lemma vwap_zero_volume_start_witness :
  firstn 2 (Derived.vwap [10; 11; 12; 13]%float [0; 0; 5; 5]%float) = [nan; nan].
Proof.
  apply (vwap_zero_volume_start [10; 11; 12; 13]%float [0; 0; 5; 5]%float 2).
  - simpl. lia.
  - simpl. lia.
  - repeat constructor.
Defined.

(** Where the cumulative volume is not zero, the guard of the later variant
    changes nothing: its [vwap] before the fill is the plain quotient the
    earlier variant computes, and where that quotient is defined the fill
    leaves it as it is. *)
Theorem vwap_agrees_with_earlier (close volume : list float) (i : nat) :
  (i < List.length close)%nat -> (i < List.length volume)%nat ->
  Py.eq (nth i (Derived.cum_vol volume) nan) 0 = false ->
  nth i (Derived.raw_vwap close volume) nan
  = nth i (EarlierDerived.vwap close volume) nan
  /\ (Py.isna (nth i (EarlierDerived.vwap close volume) nan) = false ->
      nth i (Derived.vwap close volume) nan
      = nth i (EarlierDerived.vwap close volume) nan).
Proof.
  intros Hc Hv Hz.
  pose proof cumsum_length as Hlen.
  assert (H : nth i (Derived.raw_vwap close volume) nan
              = nth i (EarlierDerived.vwap close volume) nan).
  { unfold Derived.raw_vwap, EarlierDerived.vwap, Derived.cum_vol_price,
      Derived.cum_vol, Series.div, Series.replace_zero in *.
    rewrite (zip_with_nth _ nan nan), (zip_with_nth _ nan nan);
      rewrite ?length_map, ?Hlen; unfold Series.mul;
      rewrite ?zip_with_length; try lia.
    change nan with (Series.replace_zero_cell nan) at 2. rewrite map_nth.
    unfold Series.replace_zero_cell. now rewrite Hz. }
  split; [exact H|].
  intros Hd. rewrite <- H in *.
  unfold Derived.vwap, Series.ffill. now apply ffill_from_keeps.
Qed.

Lemma vwap_agrees_with_earlier_witness :
  nth 1 (Derived.raw_vwap [10; 11; 12; 13]%float [0; 5; 0; 5]%float) nan
  = nth 1 (EarlierDerived.vwap [10; 11; 12; 13]%float [0; 5; 0; 5]%float) nan.
Proof.
  refine (proj1 (vwap_agrees_with_earlier [10; 11; 12; 13]%float
                   [0; 5; 0; 5]%float 1 _ _ eq_refl)); simpl; lia.
Defined.

(** ** The bands of the earlier variant *)

Lemma mul_nan_r (x y : float) : is_nan y = true -> is_nan (x * y) = true.
Proof.
  intros H. apply FloatFacts.is_nan_spec in H. apply FloatFacts.is_nan_spec.
  rewrite FloatAxioms.mul_spec, H. now destruct (Prim2SF x).
Qed.

Lemma add_nan_l (x y : float) : is_nan x = true -> is_nan (x + y) = true.
Proof.
  intros H. apply FloatFacts.is_nan_spec in H. apply FloatFacts.is_nan_spec.
  rewrite FloatAxioms.add_spec, H. reflexivity.
Qed.

Lemma sub_nan_l (x y : float) : is_nan x = true -> is_nan (x - y) = true.
Proof.
  intros H. apply FloatFacts.is_nan_spec in H. apply FloatFacts.is_nan_spec.
  rewrite FloatAxioms.sub_spec, H. reflexivity.
Qed.

Lemma div_nan_l (x y : float) : is_nan x = true -> is_nan (x / y) = true.
Proof.
  intros H. apply FloatFacts.is_nan_spec in H. apply FloatFacts.is_nan_spec.
  rewrite FloatAxioms.div_spec, H. reflexivity.
Qed.

Lemma earlier_bands_nth (bb_mid bb_std : list float) (i : nat) :
  (i < List.length bb_mid)%nat -> (i < List.length bb_std)%nat ->
  let m := nth i bb_mid nan in
  let s := nth i bb_std nan in
  nth i (EarlierDerived.bb_upper bb_mid bb_std) nan = (m + 2 * s)%float
  /\ nth i (EarlierDerived.bb_lower bb_mid bb_std) nan = (m - 2 * s)%float
  /\ nth i (EarlierDerived.bb_width bb_mid bb_std) nan
     = ((m + 2 * s - (m - 2 * s)) / m)%float.
Proof.
  intros Hm Hs m s.
  assert (Hd : nth i (map (fun x => (2 * x)%float) bb_std) nan = (2 * s)%float).
  { rewrite (nth_indep _ nan ((fun x => (2 * x)%float) nan))
      by (now rewrite length_map).
    apply map_nth. }
  assert (Hu : nth i (EarlierDerived.bb_upper bb_mid bb_std) nan = (m + 2 * s)%float).
  { unfold EarlierDerived.bb_upper, Series.add.
    rewrite (zip_with_nth _ nan nan) by (rewrite ?length_map; lia).
    now rewrite Hd. }
  assert (Hl : nth i (EarlierDerived.bb_lower bb_mid bb_std) nan = (m - 2 * s)%float).
  { unfold EarlierDerived.bb_lower, Series.sub.
    rewrite (zip_with_nth _ nan nan) by (rewrite ?length_map; lia).
    now rewrite Hd. }
  repeat split; [exact Hu | exact Hl |].
  unfold EarlierDerived.bb_width, Series.div, Series.sub.
  assert (Hlu : List.length (EarlierDerived.bb_upper bb_mid bb_std)
                = Nat.min (List.length bb_mid) (List.length bb_std)).
  { unfold EarlierDerived.bb_upper, Series.add. now rewrite zip_with_length, length_map. }
  assert (Hll : List.length (EarlierDerived.bb_lower bb_mid bb_std)
                = Nat.min (List.length bb_mid) (List.length bb_std)).
  { unfold EarlierDerived.bb_lower, Series.sub. now rewrite zip_with_length, length_map. }
  rewrite (zip_with_nth _ nan nan) by (rewrite ?zip_with_length; lia).
  rewrite (zip_with_nth _ nan nan) by lia.
  now rewrite Hu, Hl.
Qed.

(** In the earlier variant a row whose rolling mean or rolling deviation is
    NaN (the rows before the twentieth close) has a NaN upper band, lower
    band and band width, and on a bar with that width neither signal
    fires. *)
Theorem earlier_bands_undefined (bb_mid bb_std : list float) (i : nat) :
  (i < List.length bb_mid)%nat -> (i < List.length bb_std)%nat ->
  Py.isna (nth i bb_mid nan) = true \/ Py.isna (nth i bb_std nan) = true ->
  Py.isna (nth i (EarlierDerived.bb_upper bb_mid bb_std) nan) = true
  /\ Py.isna (nth i (EarlierDerived.bb_lower bb_mid bb_std) nan) = true
  /\ Py.isna (nth i (EarlierDerived.bb_width bb_mid bb_std) nan) = true
  /\ forall e,
       Earlier.bb_width e = nth i (EarlierDerived.bb_width bb_mid bb_std) nan ->
       Earlier.long_signal e = false /\ Earlier.short_signal e = false.
Proof.
  intros Hm Hs Hn.
  destruct (earlier_bands_nth bb_mid bb_std i Hm Hs) as (Hu & Hl & Hw).
  cbv zeta in Hu, Hl, Hw.
  assert (Hup : Py.isna (nth i (EarlierDerived.bb_upper bb_mid bb_std) nan) = true).
  { rewrite Hu. unfold Py.isna in *. destruct Hn as [Hn | Hn].
    - now apply add_nan_l.
    - apply FloatOrder.add_nan_r. now apply mul_nan_r. }
  assert (Hwd : Py.isna (nth i (EarlierDerived.bb_width bb_mid bb_std) nan) = true).
  { rewrite Hw. unfold Py.isna in *. apply div_nan_l. apply sub_nan_l.
    rewrite <- Hu. exact Hup. }
  repeat split; try assumption.
  - rewrite Hl. unfold Py.isna in *. destruct Hn as [Hn | Hn].
    + now apply sub_nan_l.
    + apply FloatOrder.sub_nan_r. now apply mul_nan_r.
  - unfold Earlier.long_signal. rewrite H.
    destruct (Py.gt (nth i (EarlierDerived.bb_width bb_mid bb_std) nan)
                Earlier.min_bb_width) eqn:E.
    + apply gt_defined in E. destruct E as [E _]. congruence.
    + now rewrite andb_false_r.
  - unfold Earlier.short_signal. rewrite H.
    destruct (Py.gt (nth i (EarlierDerived.bb_width bb_mid bb_std) nan)
                Earlier.min_bb_width) eqn:E.
    + apply gt_defined in E. destruct E as [E _]. congruence.
    + now rewrite andb_false_r.
Qed.

Lemma earlier_bands_undefined_witness :
  Py.isna (nth 0 (EarlierDerived.bb_width [nan; 100]%float [nan; 1]%float) nan) = true.
Proof.
  refine (proj1 (proj2 (proj2
            (earlier_bands_undefined [nan; 100]%float [nan; 1]%float 0 _ _
               (or_introl eq_refl))))); simpl; lia.
Defined.

(** ** The earlier variant on sample inputs *)

Lemma earlier_trailing_stop_monotone_witness :
  Py.lt 101 90 = false.
Proof.
  exact (proj1 (earlier_trailing_stop_monotone 90 101 Sample.earlier_still_bar) eq_refl).
Defined.

Lemma earlier_variant_checks_every_table_witness :
  exists col, In col required_cols
              /\ Earlier.check_columns Sample.empty_without_volume
                 = Some (missing_column col).
Proof.
  apply (earlier_variant_checks_every_table Sample.empty_without_volume "volume"%string).
  - simpl. tauto.
  - reflexivity.
Defined.
